(** * The recursive site crawler of the reader service

    A shallow embedding of [crawlUrl] and [filterLinks] of the scraper
    module, in both revisions the sources contain, together with the
    properties the specification states about them.

    - The page fetch ([scrapeUrl]) drives a browser; its page-dependent part
      is a parameter that threads an abstract world.
    - The platform's [URL] class is a parameter too; [WebURL] gives an
      executable model of it for plain http(s) links, used at concrete
      inputs.
    - The [while] loop of [crawlUrl] is a total function, defined by
      well-founded recursion on (pages still allowed, queue length). *)

From Stdlib Require Import Ascii String DecimalString.
From Equations Require Import Equations.
From stdpp Require Import gmap strings list sorting.

Open Scope string_scope.
Open Scope list_scope.
Open Scope nat_scope.

(** ** String methods of the platform used by the crawler *)

Module Str.

(** [s.startsWith(p)] *)
Definition startsWith (s p : string) : bool := String.prefix p s.

(** [s.endsWith(p)]: some suffix of [s] is [p]. *)
Fixpoint endsWith (s p : string) : bool :=
  if String.eqb s p then true
  else match s with
       | EmptyString => false
       | String _ s' => endsWith s' p
       end.

Definition lowerChar (c : ascii) : ascii :=
  let n := nat_of_ascii c in
  if (65 <=? n)%nat && (n <=? 90)%nat then ascii_of_nat (n + 32) else c.

(** [s.toLowerCase()], on the ASCII range (a [pathname] is always ASCII). *)
Fixpoint toLowerCase (s : string) : string :=
  match s with
  | EmptyString => EmptyString
  | String c s' => String (lowerChar c) (toLowerCase s')
  end.

Fixpoint drop (n : nat) (s : string) : string :=
  match n, s with
  | O, _ => s
  | S n', String _ s' => drop n' s'
  | S _, EmptyString => EmptyString
  end.

(** [s.replace(/^www\./, '')] *)
Definition stripWww (s : string) : string :=
  if startsWith s "www." then drop 4 s else s.

(** [s.replace(/\/$/, '')]: one final slash, when there is one, is removed. *)
Fixpoint stripTrailingSlash (s : string) : string :=
  match s with
  | EmptyString => EmptyString
  | String c EmptyString => if Ascii.eqb c "/" then EmptyString else s
  | String c s' => String c (stripTrailingSlash s')
  end.

(** [s.includes(c)] for a single character. *)
Fixpoint hasChar (c : ascii) (s : string) : bool :=
  match s with
  | EmptyString => false
  | String d s' => Ascii.eqb c d || hasChar c s'
  end.

(** The part of [s] before the first [c], and the rest from [c] on. *)
Fixpoint break (c : ascii) (s : string) : string * string :=
  match s with
  | EmptyString => (EmptyString, EmptyString)
  | String d s' =>
      if Ascii.eqb c d then (EmptyString, s)
      else let '(a, b) := break c s' in (String d a, b)
  end.

Fixpoint all (f : ascii -> bool) (s : string) : bool :=
  match s with
  | EmptyString => true
  | String c s' => f c && all f s'
  end.

End Str.

(** ** The platform's URL objects *)

(** The getters of a [URL] object the crawler and its callers read. *)
Record URL := mkURL {
  href : string;
  origin : string;
  protocol : string;
  hostname : string;
  pathname : string;
  search : string;
  hash : string
}.

(** An executable model of [new URL(input, base)] for plain links: scheme
    [http] or [https] in lower case, a host of lower-case letters, digits,
    dots and hyphens (no user, password or port; no numeric or
    internationalised label), a path and query of
    characters that need no percent-encoding and no [.] or [..] segment.
    On those it follows the URL standard; [None] stands for the
    [TypeError] of the constructor and is also the answer outside that
    range, so the model is only evaluated on links inside it. *)
Module WebURL.

Definition isLower (n : nat) : bool := (97 <=? n)%nat && (n <=? 122)%nat.
Definition isUpper (n : nat) : bool := (65 <=? n)%nat && (n <=? 90)%nat.
Definition isDigit (n : nat) : bool := (48 <=? n)%nat && (n <=? 57)%nat.

Definition hostChar (c : ascii) : bool :=
  let n := nat_of_ascii c in
  isLower n || isDigit n || Ascii.eqb c "." || Ascii.eqb c "-".

Definition pathChar (c : ascii) : bool :=
  let n := nat_of_ascii c in
  isLower n || isUpper n || isDigit n
  || Ascii.eqb c "/" || Ascii.eqb c "." || Ascii.eqb c "-"
  || Ascii.eqb c "_" || Ascii.eqb c "~".

Definition queryChar (c : ascii) : bool :=
  pathChar c || Ascii.eqb c "?" || Ascii.eqb c "=" || Ascii.eqb c "&".

(** Every label of the host starts with a lower-case letter and no two
    hyphens are adjacent: the host is neither an IPv4 address nor an
    internationalised name, and is serialised as written. *)
Fixpoint hostOk (prev : ascii) (s : string) : bool :=
  match s with
  | EmptyString => negb (Ascii.eqb prev ".")
  | String c s' =>
      hostChar c
      && (if Ascii.eqb prev "." then isLower (nat_of_ascii c) else true)
      && negb (Ascii.eqb prev "-" && Ascii.eqb c "-")
      && hostOk c s'
  end.

(** No segment of the path is [.] or [..]. *)
Fixpoint noDotSegment (seg : string) (s : string) : bool :=
  match s with
  | EmptyString => negb (String.eqb seg "." || String.eqb seg "..")
  | String c s' =>
      if Ascii.eqb c "/"
      then negb (String.eqb seg "." || String.eqb seg "..") && noDotSegment "" s'
      else noDotSegment (seg +:+ String c "") s'
  end.

Definition splitScheme (s : string) : option (string * string) :=
  if Str.startsWith s "https://" then Some ("https:", Str.drop 8 s)
  else if Str.startsWith s "http://" then Some ("http:", Str.drop 7 s)
  else None.

Definition parseAbsolute (input : string) : option URL :=
  let '(s1, frag) := Str.break "#" input in
  let '(s2, query) := Str.break "?" s1 in
  match splitScheme s2 with
  | None => None
  | Some (proto, rest) =>
      let '(host, path0) := Str.break "/" rest in
      let path := if String.eqb path0 "" then "/" else path0 in
      if hostOk "." host
         && Str.all pathChar path && noDotSegment "" path
         && Str.all queryChar (Str.drop 1 query)
         && Str.all queryChar (Str.drop 1 frag)
      then Some {| href := proto +:+ "//" +:+ host +:+ path +:+ query +:+ frag;
                   origin := proto +:+ "//" +:+ host;
                   protocol := proto;
                   hostname := host;
                   pathname := path;
                   search := if String.eqb query "?" then "" else query;
                   hash := if String.eqb frag "#" then "" else frag |}
      else None
  end.

(** A link without its query and fragment. *)
Definition stem (input : string) : string :=
  fst (Str.break "?" (fst (Str.break "#" input))).

(** The directory of a path: everything up to and including its last slash. *)
Fixpoint dirname (s : string) : string :=
  match s with
  | EmptyString => EmptyString
  | String c s' =>
      if Str.hasChar "/" s' then String c (dirname s')
      else if Ascii.eqb c "/" then "/" else EmptyString
  end.

(** A reference that begins with a scheme ([mailto:], [javascript:], ...). *)
Definition hasScheme (s : string) : bool :=
  let '(a, b) := Str.break ":" s in
  negb (String.eqb b "") && negb (String.eqb a "")
  && Str.all (fun c => isLower (nat_of_ascii c) || isUpper (nat_of_ascii c)
                       || isDigit (nat_of_ascii c) || Ascii.eqb c "+"
                       || Ascii.eqb c "-" || Ascii.eqb c ".") a.

Definition resolve (input : string) (b : URL) : option URL :=
  let query := Str.drop (String.length (origin b +:+ pathname b))
                 (fst (Str.break "#" (href b))) in
  if hasScheme input then None
  else if Str.startsWith input "//" then parseAbsolute (protocol b +:+ input)
  else if Str.startsWith input "/" then parseAbsolute (origin b +:+ input)
  else if Str.startsWith input "?" then
    parseAbsolute (origin b +:+ pathname b +:+ input)
  else if Str.startsWith input "#" || String.eqb input "" then
    parseAbsolute (origin b +:+ pathname b +:+ query +:+ input)
  else parseAbsolute (origin b +:+ dirname (pathname b) +:+ input).

(** The base, when given, is parsed first, and the constructor throws
    when it does not parse, whatever the input. *)
Definition newURL (input : string) (base : option string) : option URL :=
  match base with
  | None => parseAbsolute input
  | Some b =>
      match parseAbsolute b with
      | None => None
      | Some bu =>
          match parseAbsolute input with
          | Some u => Some u
          | None => resolve input bu
          end
      end
  end.

End WebURL.

(** ** The scraper's data *)

Module ScrapeOptions.
Record t := mk {
  render : option bool;
  screenshot : option bool;
  waitFor : option string;
  includeLinks : option bool
}.
End ScrapeOptions.

(** [ScrapeResult]; the untyped [schema], [metadata] and [hiddenState]
    blobs are passed through untouched and left out. *)
Record ScrapeResult := mkScrapeResult {
  title : string;
  content : string;
  textContent : string;
  byline : option string;
  siteName : option string;
  url : string;
  screenshot : option string;
  links : option (list string)
}.

(** What one browser visit yields: the fields [scrapeUrl] reads off the
    page ([a.href] of every anchor in [anchors]). *)
Module PageData.
Record t := mk {
  title : string;
  content : string;
  textContent : string;
  byline : option string;
  siteName : option string;
  screenshot : option string;
  anchors : list string
}.
End PageData.

(** An entry of the crawl queue, [{ url, depth }]. *)
Module Entry.
Record t := mk { url : string; depth : nat }.
End Entry.

(** The lines the crawler writes to the console. *)
Inductive LogLine :=
| LogStart (startUrl : string)
| LogVisit (index maxPages depth : nat) (url : string)
| LogFailed (url err : string)
| LogComplete (scraped : nat).

(** The local variables of [crawlUrl] the loop changes, with the world the
    browser acts on and the console. *)
Module St.
Record t (W : Type) := mk {
  world : W;
  console : list LogLine;
  visited : gset string;
  queue : list Entry.t;
  results : list ScrapeResult;
  linksDiscovered : nat
}.
Arguments mk {W}.
Arguments world {W}.
Arguments console {W}.
Arguments visited {W}.
Arguments queue {W}.
Arguments results {W}.
Arguments linksDiscovered {W}.
End St.

(** [CrawlOptions]. The two bounds are counts: natural numbers, as in the
    request type of the specification; the negative or fractional values
    that [number] also admits are outside that type. *)
Module CrawlOptions.
Record t := mk {
  maxPages : option nat;
  maxDepth : option nat;
  render : option bool;
  screenshot : option bool;
  allowSubdomains : option bool
}.
End CrawlOptions.

Record CrawlStats := mkCrawlStats {
  pagesScraped : nat;
  linksDiscovered : nat
}.

(** [CrawlResult]; [stats.duration] is wall-clock time in floating point
    and is not modelled. *)
Record CrawlResult := mkCrawlResult {
  pages : list ScrapeResult;
  stats : CrawlStats
}.

(** The two revisions of the crawler in the sources: [Rev1] is the one
    whose [filterLinks] stores [href], [Rev2] the one that stores
    [origin + pathname]. *)
Inductive Revision := Rev1 | Rev2.

(** [a ?? b] *)
Definition orDefault {A} (a : option A) (b : A) : A :=
  match a with Some x => x | None => b end.

(** [new Set<string>()] keeps insertion order: [add] appends a new member. *)
Definition setAdd (s : list string) (x : string) : list string :=
  if bool_decide (x ∈ s) then s else s ++ [x].

(** *** Reading the console *)

(** The depth the console reports for the visit of [u]. *)
Fixpoint depthLogged (console : list LogLine) (u : string) : option nat :=
  match console with
  | [] => None
  | LogVisit _ _ d u' :: rest =>
      if String.eqb u' u then Some d else depthLogged rest u
  | _ :: rest => depthLogged rest u
  end.

(** How many visits the console reports, and how many failures. *)
Definition visitsLogged (console : list LogLine) : nat :=
  length (List.filter (fun l => match l with LogVisit _ _ _ _ => true | _ => false end)
            console).

Definition failuresLogged (console : list LogLine) : nat :=
  length (List.filter (fun l => match l with LogFailed _ _ => true | _ => false end)
            console).

Section Crawler.

(** [new URL(input)] and [new URL(input, base)]; [None] is the thrown
    [TypeError]. *)
Variable newURL : string -> option string -> option URL.

(** *** Link scope filter *)

(** The guard at the top of the loop body of [filterLinks]. *)
Definition skipped (rawLink : string) : bool :=
  String.eqb rawLink "" || Str.startsWith rawLink "#"
  || Str.startsWith rawLink "mailto:" || Str.startsWith rawLink "javascript:".

(** [absoluteUrl] and [urlObj] for a raw link; [None] when either
    constructor throws. *)
Definition resolveLink (currentUrl rawLink : string) : option (string * URL) :=
  match newURL rawLink (Some currentUrl) with
  | None => None
  | Some resolved =>
      let absoluteUrl := href resolved in
      match newURL absoluteUrl None with
      | None => None
      | Some urlObj => Some (absoluteUrl, urlObj)
      end
  end.

(** [isSameDomain || (allowSubdomains && isSubdomain)] *)
Definition inScope (normalizedBase : string) (allowSub : bool) (urlObj : URL)
    : bool :=
  let currentHost := Str.stripWww (hostname urlObj) in
  let isSameDomain := String.eqb currentHost normalizedBase in
  let isSubdomain := Str.endsWith (hostname urlObj) ("." +:+ normalizedBase) in
  isSameDomain || (allowSub && isSubdomain).

(** [origin + pathname.replace(/\/$/, '')], the link [Rev2] keeps. *)
Definition normalized (urlObj : URL) : string :=
  origin urlObj +:+ Str.stripTrailingSlash (pathname urlObj).

(** The asset test of each revision on the parsed link; [Rev1] looks at
    the lower-cased path, [Rev2] at the normalized link as written. *)
Definition isAsset (rev : Revision) (urlObj : URL) : bool :=
  match rev with
  | Rev1 =>
      let path := Str.toLowerCase (pathname urlObj) in
      Str.endsWith path ".png" || Str.endsWith path ".jpg"
      || Str.endsWith path ".pdf" || Str.endsWith path ".zip"
  | Rev2 =>
      Str.endsWith (normalized urlObj) ".png"
      || Str.endsWith (normalized urlObj) ".jpg"
      || Str.endsWith (normalized urlObj) ".pdf"
  end.

(** What one raw link adds to [uniqueLinks]: [None] when the body is left
    by [continue], by a failed test or by the [catch]. *)
Definition candidate (rev : Revision) (currentUrl normalizedBase : string)
    (allowSub : bool) (rawLink : string) : option string :=
  if skipped rawLink then None
  else match resolveLink currentUrl rawLink with
       | None => None
       | Some (absoluteUrl, urlObj) =>
           if inScope normalizedBase allowSub urlObj then
             if isAsset rev urlObj then None
             else Some (match rev with
                        | Rev1 => absoluteUrl
                        | Rev2 => normalized urlObj
                        end)
           else None
       end.

Definition filterLinks (rev : Revision) (rawLinks : list string)
    (currentUrl baseDomain : string) (allowSub : bool) : list string :=
  let normalizedBase := Str.stripWww baseDomain in
  fold_left
    (fun uniqueLinks rawLink =>
       match candidate rev currentUrl normalizedBase allowSub rawLink with
       | Some link => setAdd uniqueLinks link
       | None => uniqueLinks
       end)
    rawLinks [].

(** *** Page fetch *)

(** One visit of a page in the world the browser acts on: the new world
    and either the error thrown or what the page showed. *)
Context {W : Type}.
Variable browse :
  W -> string -> ScrapeOptions.t -> W * (string + PageData.t).

(** [scrapeUrl]: the record built from the visit. Its [url] is the
    argument, its [links] the anchors that are non-empty and start with
    [http], when links were asked for. *)
Definition scrapeUrl (w : W) (url : string) (options : ScrapeOptions.t)
    : W * (string + ScrapeResult) :=
  let '(w', visit) := browse w url options in
  match visit with
  | inl err => (w', inl err)
  | inr page =>
      let extractedLinks :=
        if orDefault (ScrapeOptions.includeLinks options) false
        then List.filter (fun h => negb (String.eqb h "") && Str.startsWith h "http")
               (PageData.anchors page)
        else [] in
      (w', inr {| title := PageData.title page;
                  content := PageData.content page;
                  textContent := PageData.textContent page;
                  byline := PageData.byline page;
                  siteName := PageData.siteName page;
                  url := url;
                  screenshot := PageData.screenshot page;
                  links := Some extractedLinks |})
  end.

(** *** Crawl frontier engine *)

Section Loop.

Variable rev : Revision.
Variable options : CrawlOptions.t.

Let maxPages := orDefault (CrawlOptions.maxPages options) 10.
Let maxDepth := orDefault (CrawlOptions.maxDepth options) 2.
Let allowSubdomains := orDefault (CrawlOptions.allowSubdomains options) false.

(** [new URL(startUrl).hostname], once the start URL is known to parse. *)
Variable startDomain : string.

(** The options of every fetch of the crawl. *)
Definition fetchOptions : ScrapeOptions.t :=
  {| ScrapeOptions.render := CrawlOptions.render options;
     ScrapeOptions.screenshot := CrawlOptions.screenshot options;
     ScrapeOptions.waitFor := None;
     ScrapeOptions.includeLinks := Some true |}.

(** One turn of the [for] loop over the filtered links. *)
Definition enqueueLink (visited : gset string) (nresults depth : nat)
    (queue : list Entry.t) (link : string) : list Entry.t :=
  if negb (bool_decide (link ∈ visited))
     && (nresults + length queue <? maxPages * 2)
  then queue ++ [Entry.mk link (depth + 1)]
  else queue.

(** The body of the [while] loop. *)
Definition iteration (st : St.t W) : St.t W :=
  match St.queue st with
  | [] => st
  | current :: rest =>
      let url := Entry.url current in
      let depth := Entry.depth current in
      if bool_decide (url ∈ St.visited st) || (maxDepth <? depth)
      then St.mk (St.world st) (St.console st) (St.visited st) rest
             (St.results st) (St.linksDiscovered st)
      else
        let visited := {[url]} ∪ St.visited st in
        let console :=
          St.console st
          ++ [LogVisit (length (St.results st) + 1) maxPages depth url] in
        match scrapeUrl (St.world st) url fetchOptions with
        | (w, inl err) =>
            St.mk w (console ++ [LogFailed url err]) visited rest
              (St.results st) (St.linksDiscovered st)
        | (w, inr result) =>
            let results := St.results st ++ [result] in
            if maxDepth <=? depth
            then St.mk w console visited rest results (St.linksDiscovered st)
            else
              let links := orDefault (links result) [] in
              let filteredLinks :=
                filterLinks rev links url startDomain allowSubdomains in
              St.mk w console visited
                (fold_left (enqueueLink visited (length results) depth)
                   filteredLinks rest)
                results
                (St.linksDiscovered st + length filteredLinks)
        end
  end.

(** The condition of the [while] loop. *)
Definition loopCond (st : St.t W) : bool :=
  (0 <? length (St.queue st)) && (length (St.results st) <? maxPages).

(** Pages still allowed, then entries still queued. *)
Definition measure (st : St.t W) : nat * nat :=
  (maxPages - length (St.results st), length (St.queue st)).

(** The [while] loop: it runs the body as long as the condition holds.
    Every turn either adds a page or shortens the queue, so it ends. *)
Equations? crawlLoop (st : St.t W) : St.t W
    by wf (measure st) (Subterm.lexprod _ _ lt lt) :=
  crawlLoop st with Equations.Prop.Logic.inspect (loopCond st) => {
    | exist _ true _ => crawlLoop (iteration st);
    | exist _ false _ => st }.
Proof.
  unfold loopCond, measure, iteration in *.
  apply andb_prop in e as [Hq Hr].
  apply Nat.ltb_lt in Hq. apply Nat.ltb_lt in Hr.
  destruct (St.queue st) as [|current rest]; simpl in *; [lia|].
  destruct (_ || _); simpl; [apply Subterm.right_lex; lia|].
  destruct (scrapeUrl _ _ _) as [w [err|result]]; simpl.
  - apply Subterm.right_lex; lia.
  - destruct (_ <=? _); simpl; apply Subterm.left_lex;
      rewrite length_app; simpl; lia.
Qed.

(** The loop unrolled at most [n] times. *)
Fixpoint unroll (n : nat) (st : St.t W) : St.t W :=
  match n with
  | O => st
  | S n' => if loopCond st then unroll n' (iteration st) else st
  end.

(** The states at the head of the loop in the run from [st0]. *)
Inductive Reached (st0 : St.t W) : St.t W -> Prop :=
| reached_start : Reached st0 st0
| reached_turn st :
    Reached st0 st -> loopCond st = true -> Reached st0 (iteration st).

(** The queued entries that an expansion created: the seed has depth 0,
    every entry pushed by the loop has the depth of its page plus one. *)
Definition expansionEntries (queue : list Entry.t) : list Entry.t :=
  List.filter (fun e => 0 <? Entry.depth e) queue.

(** What the expansion of page [p] adds to [linksDiscovered], given the
    depth the console reports for it. *)
Definition expansionSize (console : list LogLine) (p : ScrapeResult) : nat :=
  match depthLogged console (url p) with
  | Some d =>
      if d <? maxDepth
      then length (filterLinks rev (orDefault (links p) []) (url p)
                     startDomain allowSubdomains)
      else 0
  | None => 0
  end.

(** The console and the counter agree with the pages: every page was
    reported, every reported URL is visited, and [linksDiscovered] is the
    sum of what each page's expansion added. *)
Definition accounted (st : St.t W) : Prop :=
  (forall p, p ∈ St.results st -> is_Some (depthLogged (St.console st) (url p)))
  /\ (forall u, is_Some (depthLogged (St.console st) u) -> u ∈ St.visited st)
  /\ St.linksDiscovered st
     = sum_list_with (expansionSize (St.console st)) (St.results st).

End Loop.

(** No page is fetched twice: the pages fetched have distinct URLs, all
    of them visited. *)
Definition distinctPages (st : St.t W) : Prop :=
  NoDup (url <$> St.results st)
  /\ forall p, p ∈ St.results st -> url p ∈ St.visited st.

(** The state on entry to the loop. *)
Definition initial (w : W) (startUrl : string) : St.t W :=
  St.mk w [LogStart startUrl] ∅ [Entry.mk startUrl 0] [] 0.

(** What is returned from the state on leaving the loop. *)
Definition resultOf (st : St.t W) : CrawlResult :=
  {| pages := St.results st;
     stats := {| pagesScraped := length (St.results st);
                 linksDiscovered := St.linksDiscovered st |} |}.

(** After the loop [Rev2] reports completion on the console. *)
Definition finish (rev : Revision) (st : St.t W) : St.t W :=
  match rev with
  | Rev1 => st
  | Rev2 =>
      St.mk (St.world st)
        (St.console st ++ [LogComplete (length (St.results st))])
        (St.visited st) (St.queue st) (St.results st) (St.linksDiscovered st)
  end.

(** The run of [crawlUrl] up to its [return]: [None] when
    [new URL(startUrl)] throws, before any fetch; else the state the loop
    and the final report end in. [Rev2] computes [startDomain] again
    inside the loop, with the same outcome. *)
Definition crawlRun (rev : Revision) (w : W) (startUrl : string)
    (options : CrawlOptions.t) : option (St.t W) :=
  match newURL startUrl None with
  | None => None
  | Some u =>
      let startDomain := hostname u in
      Some (finish rev
              (crawlLoop rev options startDomain (initial w startUrl)))
  end.

Definition crawlUrl (rev : Revision) (w : W) (startUrl : string)
    (options : CrawlOptions.t) : option CrawlResult :=
  resultOf <$> crawlRun rev w startUrl options.

(** The reading of the depth-zero property without a lower bound on
    [maxPages]: whenever the start page can be fetched, a crawl with
    [maxDepth = 0] returns exactly that page. *)
Definition depthZeroOnePage (rev : Revision) (w : W) (startUrl : string)
    (options : CrawlOptions.t) : Prop :=
  CrawlOptions.maxDepth options = Some 0 ->
  forall w' page,
    scrapeUrl w startUrl (fetchOptions options) = (w', inr page) ->
    exists r, crawlUrl rev w startUrl options = Some r /\ pages r = [page].

(** The reading of the zero-bound property for every start URL, whether
    it parses or not: with [maxPages = 0] the crawler returns a result,
    and the result has no pages. *)
Definition zeroPagesResult (rev : Revision) (w : W) (startUrl : string)
    (options : CrawlOptions.t) : Prop :=
  CrawlOptions.maxPages options = Some 0 ->
  exists r,
    crawlUrl rev w startUrl options = Some r
    /\ pages r = [] /\ pagesScraped (stats r) = 0.

End Crawler.

(** ** A small site to run the crawler on *)

Module Site.

Definition page (title : string) (anchors : list string) : PageData.t :=
  {| PageData.title := title; PageData.content := "";
     PageData.textContent := ""; PageData.byline := None;
     PageData.siteName := None; PageData.screenshot := None;
     PageData.anchors := anchors |}.

(** The start page links to four pages of the site, to itself and to an
    image; page [a] cannot be loaded. *)
Definition pagesOf : list (string * (string + PageData.t)) :=
  [("https://example.com/start",
     inr (page "start"
            ["https://example.com/a"; "https://example.com/b";
             "https://example.com/c"; "https://example.com/d";
             "https://example.com/start"; "https://example.com/logo.png"]));
   ("https://example.com/a", inl "net::ERR_CONNECTION_RESET");
   ("https://example.com/b", inr (page "b" ["https://example.com/e"]));
   ("https://example.com/c", inr (page "c" ["https://example.com/b"]));
   ("https://example.com/d", inr (page "d" []));
   ("https://example.com/e", inr (page "e" []))].

Fixpoint lookup (url : string) (l : list (string * (string + PageData.t)))
    : string + PageData.t :=
  match l with
  | [] => inl "net::ERR_NAME_NOT_RESOLVED"
  | (u, v) :: l' => if String.eqb u url then v else lookup url l'
  end.

(** The world counts the visits made. *)
Definition browse (w : nat) (url : string) (_ : ScrapeOptions.t)
    : nat * (string + PageData.t) :=
  (S w, lookup url pagesOf).

Definition opts (pages depth : nat) : CrawlOptions.t :=
  {| CrawlOptions.maxPages := Some pages;
     CrawlOptions.maxDepth := Some depth;
     CrawlOptions.render := None;
     CrawlOptions.screenshot := None;
     CrawlOptions.allowSubdomains := None |}.

Definition start : string := "https://example.com/start".

(** [new URL(start)] *)
Definition startURL : URL :=
  {| href := "https://example.com/start";
     origin := "https://example.com";
     protocol := "https:";
     hostname := "example.com";
     pathname := "/start";
     search := "";
     hash := "" |}.

(** The crawler of either revision on this site. *)
Definition crawl (rev : Revision) (pages depth : nat) : option CrawlResult :=
  crawlUrl WebURL.newURL browse rev 0 start (opts pages depth).

End Site.

(** The raw links of the scope-filter example. *)
Definition exampleLinks : list string :=
  ["https://example.com/a"; "https://www.example.com/b";
   "https://blog.example.com/c"; "https://other.com/d"; "/relative";
   "#frag"; "mailto:x@y.com"; "https://example.com/img.png"].

(** ** Reading more off the console *)

(** The URLs the console reports a visit of, in order. *)
Fixpoint visitUrls (console : list LogLine) : list string :=
  match console with
  | [] => []
  | LogVisit _ _ _ u :: rest => u :: visitUrls rest
  | _ :: rest => visitUrls rest
  end.

(** The depths the console reports, in order. *)
Fixpoint visitDepths (console : list LogLine) : list nat :=
  match console with
  | [] => []
  | LogVisit _ _ d _ :: rest => d :: visitDepths rest
  | _ :: rest => visitDepths rest
  end.

(** Visits so far are in order of depth and not deeper than any queued
    entry; the queue is in order of depth and spans at most two levels. *)
Definition levelled {W : Type} (st : St.t W) : Prop :=
  StronglySorted le (visitDepths (St.console st))
  /\ (forall d e, d ∈ visitDepths (St.console st) -> e ∈ St.queue st ->
                  d <= Entry.depth e)
  /\ StronglySorted le (Entry.depth <$> St.queue st)
  /\ (forall e e', e ∈ St.queue st -> e' ∈ St.queue st ->
                   Entry.depth e <= Entry.depth e' + 1).


(** A URL that the scope filter returned for one of the pages. *)
Definition linkedFrom (newURL : string -> option string -> option URL)
    (rev : Revision) (options : CrawlOptions.t) (startDomain : string)
    (pages : list ScrapeResult) (u : string) : Prop :=
  exists page,
    page ∈ pages
    /\ u ∈ filterLinks newURL rev (orDefault (links page) []) (url page)
          startDomain (orDefault (CrawlOptions.allowSubdomains options) false).

(** The pages are in order of the depth the console reports for them. *)
Definition pagesByDepth {W : Type} (st : St.t W) : Prop :=
  forall i j p q di dj,
    i <= j ->
    St.results st !! i = Some p -> St.results st !! j = Some q ->
    depthLogged (St.console st) (url p) = Some di ->
    depthLogged (St.console st) (url q) = Some dj ->
    di <= dj.

(** ** The HTTP service *)

(** The two servers in the sources: the reader, whose scrape route asks for
    no links, and the engine, which asks for them. *)
Inductive Server := ReaderServer | EngineServer.

(** What a route answers: [res.status(400).json({ error })],
    [res.json({ success: true, data })] with status 200, or
    [res.status(500).json({ success: false, error })]. The [meta] object of
    the engine holds the duration and is left out, and so are the lines a
    route writes to the console. *)
Inductive Reply (A : Type) :=
| BadRequest (error : string)
| Success (data : A)
| Failure (error : string).
Arguments BadRequest {A}.
Arguments Success {A}.
Arguments Failure {A}.

Definition status {A} (r : Reply A) : nat :=
  match r with
  | BadRequest _ => 400
  | Success _ => 200
  | Failure _ => 500
  end.

(** The body of [POST /v1/crawl], with the fields the route reads. *)
Module CrawlBody.
Record t := mk {
  url : option string;
  maxPages : option nat;
  maxDepth : option nat;
  render : option bool;
  screenshot : option bool;
  allowSubdomains : option bool
}.
End CrawlBody.

(** The body of [POST /v1/scrape]. *)
Module ScrapeBody.
Record t := mk {
  url : option string;
  render : option bool;
  screenshot : option bool;
  waitFor : option string
}.
End ScrapeBody.

(** [!url] on the field of a body: it is missing or the empty string. *)
Definition missing (url : option string) : bool :=
  match url with
  | None => true
  | Some u => String.eqb u ""
  end.

(** The options [POST /v1/scrape] passes on:
    [{ render, screenshot, waitFor }] in the reader, and the same with
    [includeLinks: true] in the engine. *)
Definition scrapeOptionsOf (server : Server) (body : ScrapeBody.t)
    : ScrapeOptions.t :=
  {| ScrapeOptions.render := ScrapeBody.render body;
     ScrapeOptions.screenshot := ScrapeBody.screenshot body;
     ScrapeOptions.waitFor := ScrapeBody.waitFor body;
     ScrapeOptions.includeLinks :=
       match server with
       | ReaderServer => None
       | EngineServer => Some true
       end |}.

Section Routes.

Variable newURL : string -> option string -> option URL.
Context {W : Type}.
Variable browse :
  W -> string -> ScrapeOptions.t -> W * (string + PageData.t).

(** The message of the [TypeError] that [new URL] throws on an input. *)
Variable typeErrorMessage : string -> string.

(** The options [POST /v1/crawl] passes on. *)
Definition crawlOptionsOf (body : CrawlBody.t) : CrawlOptions.t :=
  {| CrawlOptions.maxPages := Some (orDefault (CrawlBody.maxPages body) 10);
     CrawlOptions.maxDepth := Some (orDefault (CrawlBody.maxDepth body) 2);
     CrawlOptions.render := Some (orDefault (CrawlBody.render body) false);
     CrawlOptions.screenshot :=
       Some (orDefault (CrawlBody.screenshot body) false);
     CrawlOptions.allowSubdomains :=
       Some (orDefault (CrawlBody.allowSubdomains body) false) |}.

(** [POST /v1/crawl]. The crawler throws only when the start URL does not
    parse, before any fetch. *)
Definition crawlRoute (rev : Revision) (w : W) (body : CrawlBody.t)
    : W * Reply CrawlResult :=
  if missing (CrawlBody.url body) then (w, BadRequest "Missing 'url' in body")
  else
    let url := orDefault (CrawlBody.url body) "" in
    match crawlRun newURL browse rev w url (crawlOptionsOf body) with
    | Some st => (St.world st, Success (resultOf st))
    | None => (w, Failure (typeErrorMessage url))
    end.

(** [POST /v1/scrape]. The error a visit throws is an [Error]; the string
    is its message. *)
Definition scrapeRoute (server : Server) (w : W) (body : ScrapeBody.t)
    : W * Reply ScrapeResult :=
  if missing (ScrapeBody.url body) then (w, BadRequest "Missing 'url' in body")
  else
    let url := orDefault (ScrapeBody.url body) "" in
    match scrapeUrl browse w url (scrapeOptionsOf server body) with
    | (w', inr result) => (w', Success result)
    | (w', inl err) => (w', Failure err)
    end.

End Routes.

(** Bodies that name the start page of the site and nothing else. *)
Definition siteCrawlBody : CrawlBody.t :=
  {| CrawlBody.url := Some Site.start;
     CrawlBody.maxPages := None;
     CrawlBody.maxDepth := None;
     CrawlBody.render := None;
     CrawlBody.screenshot := None;
     CrawlBody.allowSubdomains := None |}.

Definition siteScrapeBody : ScrapeBody.t :=
  {| ScrapeBody.url := Some Site.start;
     ScrapeBody.render := None;
     ScrapeBody.screenshot := None;
     ScrapeBody.waitFor := None |}.

(** ** Video downloads *)

(** A title or the output of the downloader, as the UTF-16 code units of
    the JavaScript string: the regular expressions and [trim] below work on
    code units. *)
Definition Text := list N.

(** An ASCII literal *)
Definition text (s : string) : Text := N_of_ascii <$> list_ascii_of_string s.

Definition between (lo hi c : N) : bool := ((lo <=? c) && (c <=? hi))%N.

(** [\w]: a letter, a digit or [_] *)
Definition isWord (c : N) : bool :=
  between 48 57 c || between 65 90 c || between 97 122 c || (c =? 95)%N.

(** [\s], and what [trim] removes: the white space and line terminators of
    the language *)
Definition isSpace (c : N) : bool :=
  between 9 13 c || (c =? 32)%N || (c =? 160)%N || (c =? 5760)%N
  || between 8192 8202 c || (c =? 8232)%N || (c =? 8233)%N
  || (c =? 8239)%N || (c =? 8287)%N || (c =? 12288)%N || (c =? 65279)%N.

(** [-] *)
Definition isHyphen (c : N) : bool := (c =? 45)%N.

(** What a file name made from a title may hold: a letter, a digit, [_]
    or [-]. *)
Definition fileChar (c : N) : bool := isWord c || isHyphen c.

(** Printable ASCII *)
Definition printable (c : N) : bool := between 32 126 c.

(** [s.replace(/[^\w\s-]/g, '')] *)
Definition removeSymbols (s : Text) : Text :=
  List.filter (fun c => isWord c || isSpace c || isHyphen c) s.

Fixpoint trimStart (s : Text) : Text :=
  match s with
  | [] => []
  | c :: s' => if isSpace c then trimStart s' else s
  end.

Definition trimEnd (s : Text) : Text := reverse (trimStart (reverse s)).

(** [s.trim()] *)
Definition trim (s : Text) : Text := trimEnd (trimStart s).

(** [s.replace(/\s+/g, '_')]: one [_] for every maximal run of white
    space, written where the run ends. *)
Fixpoint underscoreSpaces (s : Text) : Text :=
  match s with
  | [] => []
  | c :: s' =>
      if isSpace c then
        match s' with
        | c' :: _ => if isSpace c' then underscoreSpaces s'
                     else 95%N :: underscoreSpaces s'
        | [] => [95%N]
        end
      else c :: underscoreSpaces s'
  end.

(** [(info.title || 'danrit-video').replace(/[^\w\s-]/g, '').trim()
    .replace(/\s+/g, '_')] *)
Definition fileTitle (title : option Text) : Text :=
  let named :=
    match title with
    | Some (c :: s) => c :: s
    | _ => text "danrit-video"
    end in
  underscoreSpaces (trim (removeSymbols named)).

(** [s.split('\n')[0]] *)
Fixpoint firstLine (s : Text) : Text :=
  match s with
  | [] => []
  | c :: s' => if (c =? 10)%N then [] else c :: firstLine s'
  end.

(** The value of the [Content-Disposition] header of a download,
    [attachment; filename="${filename}"]; 34 is the double quote. *)
Definition contentDisposition (filename : Text) : Text :=
  text "attachment; filename=" ++ [34%N] ++ filename ++ [34%N].

(** The two video modules: the first returns the whole output of the
    downloader, StreamJet its first line. *)
Inductive VideoModule := VideoV1 | StreamJet.

(** [String(output).trim()], and [.split('\n')[0]] in StreamJet *)
Definition streamUrlOf (m : VideoModule) (output : Text) : Text :=
  match m with
  | VideoV1 => trim output
  | StreamJet => firstLine (trim output)
  end.

(** The format the module asks the downloader for *)
Definition formatAsked (m : VideoModule) : string :=
  match m with
  | VideoV1 => "best"
  | StreamJet => "best[ext=mp4]/best"
  end.

(** The fields of a format of the metadata that [streamVideo] reads; a
    field the metadata lacks is [None]. *)
Module Format.
Record t (Num : Type) := mk {
  ext : option Text;
  vcodec : option Text;
  acodec : option Text;
  filesize : option Num;
  filesize_approx : option Num
}.
Arguments mk {Num}.
Arguments ext {Num}.
Arguments vcodec {Num}.
Arguments acodec {Num}.
Arguments filesize {Num}.
Arguments filesize_approx {Num}.
End Format.

Module Info.
Record t (Num : Type) := mk {
  title : option Text;
  formats : option (list (Format.t Num))
}.
Arguments mk {Num}.
Arguments title {Num}.
Arguments formats {Num}.
End Info.

(** The response of [fetch], with what [streamVideo] reads of it. *)
Module Response.
Record t (Stream : Type) := mk {
  ok : bool;
  status : nat;
  statusText : string;
  contentLength : option string;
  contentType : option string;
  body : option Stream
}.
Arguments mk {Stream}.
Arguments ok {Stream}.
Arguments status {Stream}.
Arguments statusText {Stream}.
Arguments contentLength {Stream}.
Arguments contentType {Stream}.
Arguments body {Stream}.
End Response.

(** What [streamVideo] returns. *)
Module Download.
Record t (Num Stream : Type) := mk {
  stream : Stream;
  contentType : string;
  filename : Text;
  filesize : option Num
}.
Arguments mk {Num Stream}.
Arguments stream {Num Stream}.
Arguments contentType {Num Stream}.
Arguments filename {Num Stream}.
Arguments filesize {Num Stream}.
End Download.

(** [s || d] on a string that may be missing *)
Definition orString (s : option string) (d : string) : string :=
  match s with
  | Some s' => if String.eqb s' "" then d else s'
  | None => d
  end.

Section Video.

Context {W : Type}.

(** The numbers of the platform, with what the code does on them: the test
    [if (n)], zero, subtraction, the test [n > 0] that [sort] makes on the
    value of the comparison, and [parseInt(s, 10)]. *)
Variable Num : Type.
Variable truthy : Num -> bool.
Variable zero : Num.
Variable minus : Num -> Num -> Num.
Variable positive : Num -> bool.
Variable parseInt : string -> Num.

Variable Stream : Type.

(** The downloader called for the metadata, [yt(url, {dumpSingleJson})],
    and for the stream URL in a format, [yt(url, {getUrl, format})]; and
    [fetch]. Each returns or throws, a message standing for the error.
    The lines the module writes to the console are left out. *)
Variable ytInfo : W -> string -> W * (string + Info.t Num).
Variable ytUrl : W -> string -> string -> W * (string + Text).
Variable fetch : W -> Text -> W * (string + Response.t Stream).

(** [getVideoStreamUrl] *)
Definition getVideoStreamUrl (m : VideoModule) (w : W) (url : string)
    : W * (string + Text) :=
  match ytUrl w url (formatAsked m) with
  | (w', inr output) => (w', inr (streamUrlOf m output))
  | (w', inl err) => (w', inl ("Failed to resolve stream: " +:+ err))
  end.

(** [n || d] on a number that may be missing *)
Definition orNum (n : option Num) (d : Num) : Num :=
  match n with
  | Some n' => if truthy n' then n' else d
  | None => d
  end.

(** [f.ext === 'mp4' && f.vcodec !== 'none' && f.acodec !== 'none'] *)
Definition playable (f : Format.t Num) : bool :=
  bool_decide (Format.ext f = Some (text "mp4"))
  && negb (bool_decide (Format.vcodec f = Some (text "none")))
  && negb (bool_decide (Format.acodec f = Some (text "none"))).

(** [(b.filesize || 0) - (a.filesize || 0)] *)
Definition bySize (a b : Format.t Num) : Num :=
  minus (orNum (Format.filesize b) zero) (orNum (Format.filesize a) zero).

(** [sort]: stable, [a] stays before [b] unless the comparison of [a] with
    [b] is positive. *)
Fixpoint insertSorted (a : Format.t Num) (l : list (Format.t Num))
    : list (Format.t Num) :=
  match l with
  | [] => [a]
  | b :: l' => if positive (bySize a b) then b :: insertSorted a l'
               else a :: l
  end.

Definition sortBySize (l : list (Format.t Num)) : list (Format.t Num) :=
  foldr insertSorted [] l.

(** [bestFormat?.filesize || bestFormat?.filesize_approx || null] *)
Definition sizeOf (best : option (Format.t Num)) : option Num :=
  match best with
  | None => None
  | Some f =>
      match Format.filesize f with
      | Some n => if truthy n then Some n
                  else match Format.filesize_approx f with
                       | Some n' => if truthy n' then Some n' else None
                       | None => None
                       end
      | None => match Format.filesize_approx f with
                | Some n' => if truthy n' then Some n' else None
                | None => None
                end
      end
  end.

(** [streamVideo]: the metadata names the file and may fail; the stream
    URL is resolved and fetched from this server. *)
Definition streamVideo (w : W) (url : string)
    : W * (string + Download.t Num Stream) :=
  let '(w1, metadata) := ytInfo w url in
  let '(title, filesize) :=
    match metadata with
    | inr info =>
        (fileTitle (Info.title info),
         sizeOf (head (sortBySize
                         (List.filter playable
                            (orDefault (Info.formats info) [])))))
    | inl _ => (text "danrit-video", None)
    end in
  match getVideoStreamUrl StreamJet w1 url with
  | (w2, inl err) => (w2, inl err)
  | (w2, inr streamUrl) =>
      match fetch w2 streamUrl with
      | (w3, inl err) => (w3, inl err)
      | (w3, inr response) =>
          if negb (Response.ok response) then
            (w3, inl ("Upstream video fetch failed: "
                      +:+ NilZero.string_of_uint
                            (Nat.to_uint (Response.status response))
                      +:+ " " +:+ Response.statusText response))
          else
            let filesize' :=
              match Response.contentLength response with
              | Some l => if String.eqb l "" then filesize
                          else Some (parseInt l)
              | None => filesize
              end in
            match Response.body response with
            | None => (w3, inl "No response body from upstream video source")
            | Some webStream =>
                (w3, inr {| Download.stream := webStream;
                            Download.contentType :=
                              orString (Response.contentType response)
                                "video/mp4";
                            Download.filename := title ++ text ".mp4";
                            Download.filesize := filesize' |})
            end
      end
  end.

End Video.

(** A video whose metadata and stream resolve, with two lines of output:
    the numbers are naturals, the world counts the calls, and the stream
    is the URL it was fetched from. *)
Module Tube.

Definition info : Info.t N :=
  {| Info.title := Some (text "  Rust in 100 seconds: why? (2024) ");
     Info.formats :=
       Some [ {| Format.ext := Some (text "mp4");
                 Format.vcodec := Some (text "avc1");
                 Format.acodec := Some (text "mp4a");
                 Format.filesize := Some 4096%N;
                 Format.filesize_approx := None |} ] |}.

Definition ytInfo (w : nat) (_ : string) : nat * (string + Info.t N) :=
  (S w, inr info).

Definition ytUrl (w : nat) (_ _ : string) : nat * (string + Text) :=
  (S w, inr (text "https://cdn.example.com/v.mp4" ++ [10%N]
             ++ text "https://cdn.example.com/a.m4a" ++ [10%N])).

Definition fetch (w : nat) (u : Text) : nat * (string + Response.t Text) :=
  (S w, inr {| Response.ok := true; Response.status := 200;
               Response.statusText := "OK";
               Response.contentLength := None;
               Response.contentType := None;
               Response.body := Some u |}).

Definition stream (w : nat) (url : string)
    : nat * (string + Download.t N Text) :=
  streamVideo N (fun n => negb (n =? 0)%N) 0%N N.sub (fun n => (0 <? n)%N)
    (fun _ => 0%N) Text ytInfo ytUrl fetch w url.

End Tube.

(** * Properties *)

(** ** Strings *)

Section StringFacts.

Lemma endsWith_cons c s p :
  Str.endsWith (String c s) p
  = if String.eqb (String c s) p then true else Str.endsWith s p.
Proof. reflexivity. Qed.

Lemma endsWith_refl p : Str.endsWith p p = true.
Proof. destruct p; unfold Str.endsWith; rewrite String.eqb_refl; reflexivity. Qed.

Lemma endsWith_app s p : Str.endsWith (s +:+ p) p = true.
Proof.
  induction s as [|c s IH].
  - apply endsWith_refl.
  - change (String c s +:+ p) with (String c (s +:+ p)).
    rewrite endsWith_cons, IH. destruct (String.eqb _ _); reflexivity.
Qed.

Lemma endsWith_inv s p : Str.endsWith s p = true -> exists t, s = t +:+ p.
Proof.
  induction s as [|c s IH].
  - destruct p; [exists ""; reflexivity|discriminate].
  - rewrite endsWith_cons. destruct (String.eqb (String c s) p) eqn:E.
    + apply String.eqb_eq in E. exists "". exact E.
    + intros H. destruct (IH H) as [t ->]. exists (String c t). reflexivity.
Qed.

Lemma toLowerCase_app s t :
  Str.toLowerCase (s +:+ t) = Str.toLowerCase s +:+ Str.toLowerCase t.
Proof. induction s as [|c s IH]; simpl; [reflexivity|rewrite IH; reflexivity]. Qed.

(** A path that ends in a lower-case extension still does once lowered. *)
Lemma endsWith_lower s ext :
  Str.toLowerCase ext = ext ->
  Str.endsWith s ext = true -> Str.endsWith (Str.toLowerCase s) ext = true.
Proof.
  intros Hl H. destruct (endsWith_inv _ _ H) as [t ->].
  rewrite toLowerCase_app, Hl. apply endsWith_app.
Qed.

Lemma hasChar_app c s t :
  Str.hasChar c (s +:+ t) = Str.hasChar c s || Str.hasChar c t.
Proof.
  induction s as [|d s IH]; simpl; [reflexivity|].
  rewrite IH, orb_assoc. reflexivity.
Qed.

Lemma hasChar_stripTrailingSlash c s :
  Str.hasChar c s = false -> Str.hasChar c (Str.stripTrailingSlash s) = false.
Proof.
  induction s as [|d s IH]; simpl; [reflexivity|].
  intros H. apply orb_false_elim in H as [H1 H2].
  destruct s as [|e s'].
  - destruct (Ascii.eqb d "/"); simpl; [reflexivity|]. rewrite H1. reflexivity.
  - change (Str.hasChar c (String d (Str.stripTrailingSlash (String e s'))) = false).
    simpl Str.hasChar at 1. rewrite H1. simpl. apply IH. exact H2.
Qed.

Lemma all_hasChar f c s :
  f c = false -> Str.all f s = true -> Str.hasChar c s = false.
Proof.
  intros Hf. induction s as [|d s IH]; simpl; [reflexivity|].
  intros H. apply andb_prop in H as [H1 H2]. rewrite (IH H2), orb_false_r.
  destruct (Ascii.eqb c d) eqn:E; [|reflexivity].
  apply Ascii.eqb_eq in E. subst. congruence.
Qed.

End StringFacts.

(** ** The link scope filter *)

Section FilterFacts.

Variable newURL : string -> option string -> option URL.

Local Abbreviation step rev cur nb allow :=
  (fun uniqueLinks rawLink =>
     match candidate newURL rev cur nb allow rawLink with
     | Some link => setAdd uniqueLinks link
     | None => uniqueLinks
     end).

Lemma setAdd_elem s x y : y ∈ setAdd s x <-> y ∈ s \/ y = x.
Proof.
  unfold setAdd. case_bool_decide as H.
  - split; [auto|]. intros [?| ->]; assumption.
  - rewrite elem_of_app, list_elem_of_singleton. tauto.
Qed.

Lemma setAdd_NoDup s x : NoDup s -> NoDup (setAdd s x).
Proof.
  unfold setAdd. intros Hs. case_bool_decide as H; [assumption|].
  apply NoDup_app. repeat split; [assumption| |apply NoDup_singleton].
  intros y Hy Hy'. apply list_elem_of_singleton in Hy'. subst. contradiction.
Qed.

Lemma collect_elem rev cur nb allow raw acc link :
  link ∈ fold_left (step rev cur nb allow) raw acc ->
  link ∈ acc
  \/ exists rawLink, rawLink ∈ raw
       /\ candidate newURL rev cur nb allow rawLink = Some link.
Proof.
  revert acc. induction raw as [|r raw IH]; intros acc; simpl; [auto|].
  intros H. apply IH in H as [H|(r' & Hr' & Hc)].
  - destruct (candidate newURL rev cur nb allow r) as [l|] eqn:E; [|auto].
    apply setAdd_elem in H as [H| ->]; [auto|].
    right. exists r. split; [apply list_elem_of_here|exact E].
  - right. exists r'. split; [apply list_elem_of_further; exact Hr'|exact Hc].
Qed.

Lemma collect_NoDup rev cur nb allow raw acc :
  NoDup acc -> NoDup (fold_left (step rev cur nb allow) raw acc).
Proof.
  revert acc. induction raw as [|r raw IH]; intros acc Hacc; simpl; [assumption|].
  apply IH. destruct (candidate _ _ _ _ _ _); [apply setAdd_NoDup|]; assumption.
Qed.

(** Every link returned comes from a raw link that passed the tests. *)
Lemma filterLinks_elem rev raw cur base allow link :
  link ∈ filterLinks newURL rev raw cur base allow ->
  exists rawLink, rawLink ∈ raw
    /\ candidate newURL rev cur (Str.stripWww base) allow rawLink = Some link.
Proof.
  unfold filterLinks. intros H. apply collect_elem in H as [H|H]; [|exact H].
  apply elem_of_nil in H. contradiction.
Qed.

(** The returned array has no duplicates. *)
Lemma filterLinks_NoDup rev raw cur base allow :
  NoDup (filterLinks newURL rev raw cur base allow).
Proof. apply collect_NoDup, NoDup_nil_2. Qed.

(** What a kept candidate went through. *)
Lemma candidate_Some rev cur nb allow rawLink link :
  candidate newURL rev cur nb allow rawLink = Some link ->
  exists absoluteUrl urlObj,
    skipped rawLink = false
    /\ resolveLink newURL cur rawLink = Some (absoluteUrl, urlObj)
    /\ inScope nb allow urlObj = true
    /\ isAsset rev urlObj = false
    /\ link = match rev with Rev1 => absoluteUrl | Rev2 => normalized urlObj end.
Proof.
  unfold candidate. destruct (skipped rawLink) eqn:Es; [discriminate|].
  destruct (resolveLink newURL cur rawLink) as [[a u]|] eqn:Er; [|discriminate].
  destruct (inScope nb allow u) eqn:Ei; [|discriminate].
  destruct (isAsset rev u) eqn:Ea; [discriminate|].
  intros [= <-]. exists a, u. auto.
Qed.

Lemma resolveLink_Some cur rawLink absoluteUrl urlObj :
  resolveLink newURL cur rawLink = Some (absoluteUrl, urlObj) ->
  newURL absoluteUrl None = Some urlObj.
Proof.
  unfold resolveLink. destruct (newURL rawLink (Some cur)); [|discriminate].
  destruct (newURL (href u) None) eqn:E; [|discriminate].
  intros [= <- <-]. exact E.
Qed.

(** The first revision rejects the four asset extensions: every link it
    returns parses, and its path ends in none of them. *)
Lemma filterLinks_rev1_no_asset raw cur base allow link :
  link ∈ filterLinks newURL Rev1 raw cur base allow ->
  exists urlObj, newURL link None = Some urlObj
    /\ Str.endsWith (pathname urlObj) ".png" = false
    /\ Str.endsWith (pathname urlObj) ".jpg" = false
    /\ Str.endsWith (pathname urlObj) ".pdf" = false
    /\ Str.endsWith (pathname urlObj) ".zip" = false.
Proof.
  intros H. apply filterLinks_elem in H as (r & _ & Hc).
  apply candidate_Some in Hc as (a & u & _ & Hr & _ & Ha & ->).
  exists u. split; [exact (resolveLink_Some _ _ _ _ Hr)|].
  unfold isAsset in Ha. repeat (apply orb_false_elim in Ha as [Ha ?]).
  repeat split;
    match goal with
    | |- Str.endsWith ?p ?e = false =>
        destruct (Str.endsWith p e) eqn:E; [|reflexivity];
        apply (endsWith_lower _ e eq_refl) in E; congruence
    end.
Qed.

(** The second revision rejects three of them, on the link it keeps. *)
Lemma filterLinks_rev2_no_asset raw cur base allow link :
  link ∈ filterLinks newURL Rev2 raw cur base allow ->
  Str.endsWith link ".png" = false
  /\ Str.endsWith link ".jpg" = false
  /\ Str.endsWith link ".pdf" = false.
Proof.
  intros H. apply filterLinks_elem in H as (r & _ & Hc).
  apply candidate_Some in Hc as (a & u & _ & Hr & _ & Ha & ->).
  unfold isAsset in Ha. repeat (apply orb_false_elim in Ha as [Ha ?]). auto.
Qed.

(** The link the second revision keeps depends on [origin] and
    [pathname] alone. *)
Lemma candidate_rev2_same cur nb allow r1 r2 a1 u1 a2 u2 l1 l2 :
  resolveLink newURL cur r1 = Some (a1, u1) ->
  resolveLink newURL cur r2 = Some (a2, u2) ->
  origin u1 = origin u2 -> pathname u1 = pathname u2 ->
  candidate newURL Rev2 cur nb allow r1 = Some l1 ->
  candidate newURL Rev2 cur nb allow r2 = Some l2 ->
  l1 = l2.
Proof.
  intros R1 R2 Ho Hp C1 C2.
  apply candidate_Some in C1 as (b1 & v1 & _ & R1' & _ & _ & ->).
  apply candidate_Some in C2 as (b2 & v2 & _ & R2' & _ & _ & ->).
  rewrite R1 in R1'. rewrite R2 in R2'.
  injection R1' as _ <-. injection R2' as _ <-.
  unfold normalized. rewrite Ho, Hp. reflexivity.
Qed.

(** Two raw links that resolve to the same origin and path return at
    most one link. *)
Lemma filterLinks_rev2_pair cur base allow r1 r2 a1 u1 a2 u2 :
  resolveLink newURL cur r1 = Some (a1, u1) ->
  resolveLink newURL cur r2 = Some (a2, u2) ->
  origin u1 = origin u2 -> pathname u1 = pathname u2 ->
  length (filterLinks newURL Rev2 [r1; r2] cur base allow) <= 1.
Proof.
  intros R1 R2 Ho Hp.
  pose proof (fun l1 l2 =>
                candidate_rev2_same cur (Str.stripWww base) allow
                  _ _ _ _ _ _ l1 l2 R1 R2 Ho Hp) as E.
  unfold filterLinks. simpl.
  destruct (candidate newURL Rev2 cur (Str.stripWww base) allow r1)
    as [l1|] eqn:C1;
    destruct (candidate newURL Rev2 cur (Str.stripWww base) allow r2)
      as [l2|] eqn:C2;
    simpl; try lia.
  rewrite (E l1 l2 eq_refl eq_refl). unfold setAdd at 1. simpl.
  rewrite bool_decide_eq_true_2 by apply list_elem_of_here. simpl. lia.
Qed.

End FilterFacts.

(** The URL model never puts a question mark in [origin] or [pathname]. *)
Section WebURLFacts.

Lemma hostOk_all prev s : WebURL.hostOk prev s = true -> Str.all WebURL.hostChar s = true.
Proof.
  revert prev. induction s as [|c s IH]; intros prev; simpl; [reflexivity|].
  intros H. repeat (apply andb_prop in H as [H ?]).
  rewrite H. simpl. eauto.
Qed.

Lemma parseAbsolute_no_query input u :
  WebURL.parseAbsolute input = Some u ->
  Str.hasChar "?" (origin u) = false /\ Str.hasChar "?" (pathname u) = false.
Proof.
  unfold WebURL.parseAbsolute.
  destruct (Str.break "#" input) as [s1 frag].
  destruct (Str.break "?" s1) as [s2 query].
  destruct (WebURL.splitScheme s2) as [[proto rest]|] eqn:Es; [|discriminate].
  destruct (Str.break "/" rest) as [host path0].
  match goal with |- (if ?c then _ else _) = _ -> _ => destruct c eqn:Ec end;
    [|discriminate].
  intros [= <-]. simpl.
  repeat (apply andb_prop in Ec as [Ec ?]).
  assert (Hp : Str.hasChar "?" proto = false).
  { unfold WebURL.splitScheme in Es.
    destruct (Str.startsWith s2 "https://"); [injection Es as <- _; reflexivity|].
    destruct (Str.startsWith s2 "http://"); [injection Es as <- _; reflexivity|].
    discriminate. }
  split.
  - rewrite !hasChar_app, Hp. simpl.
    apply (all_hasChar WebURL.hostChar); [reflexivity|].
    apply (hostOk_all "."). assumption.
  - apply (all_hasChar WebURL.pathChar); [reflexivity|assumption].
Qed.

Lemma append_assoc_s a b c : (a +:+ b) +:+ c = a +:+ (b +:+ c).
Proof.
  induction a as [|x a IH]; [reflexivity|].
  change (String x ((a +:+ b) +:+ c) = String x (a +:+ (b +:+ c))).
  rewrite IH. reflexivity.
Qed.

Lemma break_spec c s a b :
  Str.break c s = (a, b) ->
  s = a +:+ b /\ Str.hasChar c a = false
  /\ (b = "" \/ exists b', b = String c b').
Proof.
  revert a b. induction s as [|d s IH]; intros a b; simpl.
  - intros [= <- <-]. auto.
  - destruct (Ascii.eqb c d) eqn:E.
    + intros [= <- <-]. apply Ascii.eqb_eq in E. subst d. simpl. eauto.
    + destruct (Str.break c s) as [a' b'] eqn:B. intros [= <- <-].
      destruct (IH a' b' eq_refl) as (-> & Ha & Hb). simpl. rewrite E. auto.
Qed.

Lemma break_app c a b :
  Str.hasChar c a = false -> (b = "" \/ exists b', b = String c b') ->
  Str.break c (a +:+ b) = (a, b).
Proof.
  intros Ha Hb. induction a as [|d a IH]; simpl in *.
  - destruct Hb as [->|[b' ->]]; simpl; [reflexivity|].
    rewrite Ascii.eqb_refl. reflexivity.
  - apply orb_false_elim in Ha as [E Ha]. rewrite E, (IH Ha). reflexivity.
Qed.

Lemma splitScheme_app proto s :
  proto = "https:" \/ proto = "http:" ->
  WebURL.splitScheme (proto +:+ "//" +:+ s) = Some (proto, s).
Proof. intros [-> | ->]; destruct s; vm_compute; reflexivity. Qed.

(** Parsing the [href] of a parsed link gives the same URL again. *)
Lemma parseAbsolute_href input u :
  WebURL.parseAbsolute input = Some u -> WebURL.parseAbsolute (href u) = Some u.
Proof.
  unfold WebURL.parseAbsolute at 1.
  destruct (Str.break "#" input) as [s1 frag] eqn:B1.
  destruct (Str.break "?" s1) as [s2 query] eqn:B2.
  destruct (WebURL.splitScheme s2) as [[proto rest]|] eqn:Es; [|discriminate].
  destruct (Str.break "/" rest) as [host path0] eqn:B3.
  set (path := if String.eqb path0 "" then "/" else path0).
  match goal with |- (if ?c then _ else _) = _ -> _ => destruct c eqn:Ec end;
    [|discriminate].
  intros [= <-]. simpl href.
  pose proof Ec as Ec'.
  repeat (apply andb_prop in Ec' as [Ec' ?]).
  destruct (break_spec _ _ _ _ B1) as (-> & Hs1 & Hfrag).
  destruct (break_spec _ _ _ _ B2) as (-> & _ & Hquery).
  destruct (break_spec _ _ _ _ B3) as (_ & _ & Hpath0).
  rewrite hasChar_app in Hs1. apply orb_false_elim in Hs1 as [_ Hq].
  assert (Hhost : Str.all WebURL.hostChar host = true)
    by (apply (hostOk_all "."); assumption).
  assert (Hproto : proto = "https:" \/ proto = "http:").
  { unfold WebURL.splitScheme in Es.
    destruct (Str.startsWith s2 "https://"); [injection Es as <- _; auto|].
    destruct (Str.startsWith s2 "http://"); [injection Es as <- _; auto|].
    discriminate. }
  assert (Hpath : exists p, path = String "/" p).
  { unfold path. destruct Hpath0 as [->|[p ->]]; simpl; eauto. }
  assert (Hno : forall c, WebURL.hostChar c = false -> WebURL.pathChar c = false ->
                  Str.hasChar c "https:" = false -> Str.hasChar c "http:" = false ->
                  Str.hasChar c "//" = false ->
                  Str.hasChar c (proto +:+ "//" +:+ host +:+ path) = false).
  { intros c Hh Hp Hc1 Hc2 Hc3. rewrite !hasChar_app.
    rewrite (all_hasChar _ _ _ Hh Hhost), Hc3.
    rewrite (all_hasChar WebURL.pathChar c path Hp) by assumption.
    destruct Hproto as [-> | ->]; [rewrite Hc1|rewrite Hc2]; reflexivity. }
  unfold WebURL.parseAbsolute.
  replace (proto +:+ "//" +:+ host +:+ path +:+ query +:+ frag)
    with ((proto +:+ "//" +:+ host +:+ path +:+ query) +:+ frag)
    by (rewrite !append_assoc_s; reflexivity).
  rewrite break_app; [|
    replace (proto +:+ "//" +:+ host +:+ path +:+ query)
      with ((proto +:+ "//" +:+ host +:+ path) +:+ query)
      by (rewrite !append_assoc_s; reflexivity);
    rewrite hasChar_app, Hq, (Hno "#"%char) by reflexivity; reflexivity
  | exact Hfrag].
  replace (proto +:+ "//" +:+ host +:+ path +:+ query)
    with ((proto +:+ "//" +:+ host +:+ path) +:+ query)
    by (rewrite !append_assoc_s; reflexivity).
  rewrite break_app; [|apply (Hno "?"%char); reflexivity|exact Hquery].
  assert (Es' : WebURL.splitScheme (proto +:+ "//" +:+ host +:+ path)
                = Some (proto, host +:+ path)).
  { apply splitScheme_app, Hproto. }
  rewrite Es'.
  destruct Hpath as [p Hp].
  rewrite break_app;
    [|apply (all_hasChar WebURL.hostChar); [reflexivity|exact Hhost]
     |right; exists p; exact Hp].
  replace (if String.eqb path "" then "/" else path) with path
    by (rewrite Hp; reflexivity).
  fold path in Ec. rewrite Ec, !append_assoc_s. reflexivity.
Qed.

(** [origin], [hostname] and [pathname] are read off the stem. *)
Lemma parseAbsolute_stem i1 i2 u1 u2 :
  WebURL.parseAbsolute i1 = Some u1 -> WebURL.parseAbsolute i2 = Some u2 ->
  WebURL.stem i1 = WebURL.stem i2 ->
  origin u1 = origin u2 /\ hostname u1 = hostname u2
  /\ pathname u1 = pathname u2.
Proof.
  unfold WebURL.parseAbsolute, WebURL.stem.
  destruct (Str.break "#" i1) as [s1 f1]. destruct (Str.break "#" i2) as [t1 f2].
  simpl. destruct (Str.break "?" s1) as [s2 q1].
  destruct (Str.break "?" t1) as [t2 q2]. simpl.
  intros H1 H2 E. subst t2.
  destruct (WebURL.splitScheme s2) as [[proto rest]|]; [|discriminate].
  destruct (Str.break "/" rest) as [host path0].
  repeat match goal with
         | H : (if ?c then _ else _) = Some _ |- _ =>
             destruct c; [injection H as <-|discriminate]
         end.
  auto.
Qed.

(** Against a current URL that parses, a raw link that is absolute
    resolves to itself, parsed. *)
Lemma resolveLink_absolute cur rawLink u :
  is_Some (WebURL.parseAbsolute cur) ->
  WebURL.parseAbsolute rawLink = Some u ->
  resolveLink WebURL.newURL cur rawLink = Some (href u, u).
Proof.
  intros [c Hc] H. unfold resolveLink, WebURL.newURL. rewrite Hc, H.
  rewrite (parseAbsolute_href _ _ H). reflexivity.
Qed.

(** On the URL model, two absolute links that differ only in query and
    fragment return at most one link from the second revision. *)
Lemma WebURL_rev2_query_collapse cur base allow r1 r2 :
  is_Some (WebURL.parseAbsolute cur) ->
  WebURL.stem r1 = WebURL.stem r2 ->
  is_Some (WebURL.parseAbsolute r1) -> is_Some (WebURL.parseAbsolute r2) ->
  length (filterLinks WebURL.newURL Rev2 [r1; r2] cur base allow) <= 1.
Proof.
  intros Hc E [u1 H1] [u2 H2].
  destruct (parseAbsolute_stem _ _ _ _ H1 H2 E) as (Ho & _ & Hp).
  apply (filterLinks_rev2_pair WebURL.newURL cur base allow r1 r2 _ _ _ _
           (resolveLink_absolute cur _ _ Hc H1)
           (resolveLink_absolute cur _ _ Hc H2) Ho Hp).
Qed.

Lemma WebURL_from_parseAbsolute input base u :
  WebURL.newURL input base = Some u ->
  exists s, WebURL.parseAbsolute s = Some u.
Proof.
  unfold WebURL.newURL. destruct base as [b|]; [|eauto].
  destruct (WebURL.parseAbsolute b) as [bu|]; [|discriminate].
  destruct (WebURL.parseAbsolute input) eqn:E.
  - intros [= <-]. eauto.
  - unfold WebURL.resolve.
    repeat match goal with
           | |- (if ?c then _ else _) = _ -> _ => destruct c
           end; try discriminate; eauto.
Qed.

Lemma WebURL_origin_no_query input base u :
  WebURL.newURL input base = Some u -> Str.hasChar "?" (origin u) = false.
Proof.
  intros H. apply WebURL_from_parseAbsolute in H as [s H].
  apply (parseAbsolute_no_query _ _ H).
Qed.

Lemma WebURL_pathname_no_query input base u :
  WebURL.newURL input base = Some u -> Str.hasChar "?" (pathname u) = false.
Proof.
  intros H. apply WebURL_from_parseAbsolute in H as [s H].
  apply (parseAbsolute_no_query _ _ H).
Qed.

End WebURLFacts.

(** C3. On the raw links of the specification's example, with current
    page [https://example.com/start] and base domain [example.com], the
    filter of either revision returns exactly [/a], [www/b] and
    [/relative] without subdomains, and those with [blog/c] added when
    subdomains are allowed. *)
Theorem filterLinks_scope_example rev :
  filterLinks WebURL.newURL rev exampleLinks
    "https://example.com/start" "example.com" false
  = ["https://example.com/a"; "https://www.example.com/b";
     "https://example.com/relative"]
  /\ filterLinks WebURL.newURL rev exampleLinks
       "https://example.com/start" "example.com" true
     = ["https://example.com/a"; "https://www.example.com/b";
        "https://blog.example.com/c"; "https://example.com/relative"].
Proof. destruct rev; split; vm_compute; reflexivity. Qed.

(** C6. The second revision does not reject [.zip]: a link to an archive
    of the site is returned by it, and rejected by the first revision. *)
Theorem filterLinks_rev2_keeps_zip :
  filterLinks WebURL.newURL Rev2 ["https://example.com/archive.zip"]
    "https://example.com/start" "example.com" false
  = ["https://example.com/archive.zip"]
  /\ filterLinks WebURL.newURL Rev1 ["https://example.com/archive.zip"]
       "https://example.com/start" "example.com" false
     = [].
Proof. split; vm_compute; reflexivity. Qed.

Section NormalizedLinks.

Variable newURL : string -> option string -> option URL.

(** Two facts of the URL standard: the query is not part of [origin] or of
    [pathname]. *)
Hypothesis origin_no_query :
  forall input base u,
    newURL input base = Some u -> Str.hasChar "?" (origin u) = false.
Hypothesis pathname_no_query :
  forall input base u,
    newURL input base = Some u -> Str.hasChar "?" (pathname u) = false.

(** C10. In the second revision every returned link is
    [origin + pathname] of a resolved raw link, with one final slash
    removed; it contains no question mark; the returned links are
    pairwise distinct; and raw links whose resolved URLs differ only in
    query and fragment (same origin, same path) yield the same link, so
    two of them alone return at most one. *)
Theorem filterLinks_rev2_normalized raw cur base allow :
  (forall link, link ∈ filterLinks newURL Rev2 raw cur base allow ->
     (exists rawLink absoluteUrl urlObj,
        rawLink ∈ raw
        /\ resolveLink newURL cur rawLink = Some (absoluteUrl, urlObj)
        /\ link = origin urlObj +:+ Str.stripTrailingSlash (pathname urlObj))
     /\ Str.hasChar "?" link = false)
  /\ NoDup (filterLinks newURL Rev2 raw cur base allow)
  /\ (forall r1 r2 a1 u1 a2 u2,
        resolveLink newURL cur r1 = Some (a1, u1) ->
        resolveLink newURL cur r2 = Some (a2, u2) ->
        origin u1 = origin u2 -> pathname u1 = pathname u2 ->
        (forall l1 l2,
           candidate newURL Rev2 cur (Str.stripWww base) allow r1 = Some l1 ->
           candidate newURL Rev2 cur (Str.stripWww base) allow r2 = Some l2 ->
           l1 = l2)
        /\ length (filterLinks newURL Rev2 [r1; r2] cur base allow) <= 1).
Proof using origin_no_query pathname_no_query.
  split; [|split].
  - intros link H. apply filterLinks_elem in H as (r & Hr & Hc).
    apply candidate_Some in Hc as (a & u & _ & Hres & _ & _ & ->).
    split; [exists r, a, u; auto|].
    pose proof (resolveLink_Some _ _ _ _ _ Hres) as Hu.
    unfold normalized. rewrite hasChar_app.
    rewrite (origin_no_query _ _ _ Hu). simpl.
    apply hasChar_stripTrailingSlash, (pathname_no_query _ _ _ Hu).
  - apply filterLinks_NoDup.
  - intros r1 r2 a1 u1 a2 u2 R1 R2 Ho Hp.
    split.
    + intros l1 l2. apply (candidate_rev2_same _ _ _ _ _ _ _ _ _ _ _ _ R1 R2 Ho Hp).
    + apply (filterLinks_rev2_pair _ _ _ _ _ _ _ _ _ _ R1 R2 Ho Hp).
Qed.

End NormalizedLinks.

(** C10 on the URL model: three spellings of one page give one link. *)
Lemma filterLinks_rev2_normalized_witness :
  filterLinks WebURL.newURL Rev2
    ["https://example.com/x?q=1"; "https://example.com/x#top";
     "https://example.com/x/"]
    "https://example.com/start" "example.com" false
  = ["https://example.com/x"]
  /\ Str.hasChar "?" "https://example.com/x" = false
  /\ length (filterLinks WebURL.newURL Rev2
               ["https://example.com/x?q=1"; "https://example.com/x#top"]
               "https://example.com/start" "example.com" false) <= 1.
Proof.
  pose proof (filterLinks_rev2_normalized WebURL.newURL
                WebURL_origin_no_query WebURL_pathname_no_query
                ["https://example.com/x?q=1"; "https://example.com/x#top";
                 "https://example.com/x/"]
                "https://example.com/start" "example.com" false)
    as (Hall & _ & Hsame).
  split; [vm_compute; reflexivity|]. split.
  - apply (Hall "https://example.com/x"). vm_compute. apply list_elem_of_here.
  - assert (R1 : resolveLink WebURL.newURL "https://example.com/start"
                   "https://example.com/x?q=1"
                 = Some ("https://example.com/x?q=1",
                         mkURL "https://example.com/x?q=1" "https://example.com"
                           "https:" "example.com" "/x" "?q=1" ""))
      by (vm_compute; reflexivity).
    assert (R2 : resolveLink WebURL.newURL "https://example.com/start"
                   "https://example.com/x#top"
                 = Some ("https://example.com/x#top",
                         mkURL "https://example.com/x#top" "https://example.com"
                           "https:" "example.com" "/x" "" "#top"))
      by (vm_compute; reflexivity).
    exact (proj2 (Hsame _ _ _ _ _ _ R1 R2 eq_refl eq_refl)).
Defined.

(** ** The crawl loop *)

Section CrawlFacts.

Variable newURL : string -> option string -> option URL.
Context {W : Type}.
Variable browse :
  W -> string -> ScrapeOptions.t -> W * (string + PageData.t).

Section LoopFacts.

Variable rev : Revision.
Variable options : CrawlOptions.t.
Variable startDomain : string.

Local Abbreviation maxPages := (orDefault (CrawlOptions.maxPages options) 10).
Local Abbreviation maxDepth := (orDefault (CrawlOptions.maxDepth options) 2).
Local Abbreviation allowSub :=
  (orDefault (CrawlOptions.allowSubdomains options) false).
Local Abbreviation loop := (crawlLoop newURL browse rev options startDomain).
Local Abbreviation body := (iteration newURL browse rev options startDomain).
Local Abbreviation cond := (loopCond options).
Local Abbreviation fetch := (fun w u => scrapeUrl browse w u (fetchOptions options)).

Lemma crawlLoop_step (st : St.t W) :
  loop st = if cond st then loop (body st) else st.
Proof.
  rewrite crawlLoop_equation_1.
  destruct (Logic.inspect (cond st)) as [[] e]; simpl; rewrite e; reflexivity.
Qed.

Lemma crawlLoop_unroll n (st : St.t W) :
  cond (unroll newURL browse rev options startDomain n st) = false ->
  loop st = unroll newURL browse rev options startDomain n st.
Proof.
  revert st. induction n as [|n IH]; intros st; simpl.
  - intros H. rewrite crawlLoop_step, H. reflexivity.
  - rewrite (crawlLoop_step st). destruct (cond st) eqn:E; auto.
Qed.

(** The loop ends in a state reached by turns of the body, in which the
    condition fails. *)
Lemma crawlLoop_Reached (st0 : St.t W) :
  Reached newURL browse rev options startDomain st0 (loop st0)
  /\ cond (loop st0) = false.
Proof.
  assert (H : forall st, Reached newURL browse rev options startDomain st0 st ->
                         Reached newURL browse rev options startDomain st0 (loop st)
                         /\ cond (loop st) = false).
  { intros st. apply (crawlLoop_elim newURL browse rev options startDomain
      (fun st r => Reached newURL browse rev options startDomain st0 st ->
                   Reached newURL browse rev options startDomain st0 r
                   /\ cond r = false)).
    - intros s e IH _ Hs. apply IH. constructor; assumption.
    - intros s e _ Hs. auto. }
  apply H. constructor.
Qed.

(** The page [scrapeUrl] returns carries the URL it was asked for. *)
Lemma scrapeUrl_url w u opts w' result :
  scrapeUrl browse w u opts = (w', inr result) -> url result = u.
Proof.
  unfold scrapeUrl. destruct (browse w u opts) as [w1 [err|page]].
  - discriminate.
  - intros [= _ <-]. reflexivity.
Qed.

(** The four ways through the body, on a non-empty queue. *)
Lemma iteration_cases (st : St.t W) cur rest :
  St.queue st = cur :: rest ->
  (* discarded *)
  ((Entry.url cur ∈ St.visited st \/ maxDepth < Entry.depth cur)
   /\ body st = St.mk (St.world st) (St.console st) (St.visited st) rest
                  (St.results st) (St.linksDiscovered st))
  (* the fetch fails *)
  \/ ((Entry.url cur ∉ St.visited st) /\ Entry.depth cur <= maxDepth
      /\ exists w err, fetch (St.world st) (Entry.url cur) = (w, inl err)
         /\ body st
            = St.mk w
                (St.console st
                 ++ [LogVisit (length (St.results st) + 1) maxPages
                       (Entry.depth cur) (Entry.url cur)]
                 ++ [LogFailed (Entry.url cur) err])
                ({[Entry.url cur]} ∪ St.visited st) rest
                (St.results st) (St.linksDiscovered st))
  (* fetched at the depth bound *)
  \/ ((Entry.url cur ∉ St.visited st) /\ Entry.depth cur = maxDepth
      /\ exists w result, fetch (St.world st) (Entry.url cur) = (w, inr result)
         /\ body st
            = St.mk w
                (St.console st
                 ++ [LogVisit (length (St.results st) + 1) maxPages
                       (Entry.depth cur) (Entry.url cur)])
                ({[Entry.url cur]} ∪ St.visited st) rest
                (St.results st ++ [result]) (St.linksDiscovered st))
  (* fetched and expanded *)
  \/ ((Entry.url cur ∉ St.visited st) /\ Entry.depth cur < maxDepth
      /\ exists w result, fetch (St.world st) (Entry.url cur) = (w, inr result)
         /\ body st
            = St.mk w
                (St.console st
                 ++ [LogVisit (length (St.results st) + 1) maxPages
                       (Entry.depth cur) (Entry.url cur)])
                ({[Entry.url cur]} ∪ St.visited st)
                (fold_left
                   (enqueueLink options ({[Entry.url cur]} ∪ St.visited st)
                      (length (St.results st ++ [result])) (Entry.depth cur))
                   (filterLinks newURL rev (orDefault (links result) [])
                      (Entry.url cur) startDomain allowSub)
                   rest)
                (St.results st ++ [result])
                (St.linksDiscovered st
                 + length (filterLinks newURL rev (orDefault (links result) [])
                             (Entry.url cur) startDomain allowSub))).
Proof.
  intros Hq. unfold iteration. rewrite Hq.
  destruct (bool_decide (Entry.url cur ∈ St.visited st)) eqn:Ev; simpl.
  { left. split; [left; eapply bool_decide_eq_true_1; exact Ev|reflexivity]. }
  apply bool_decide_eq_false_1 in Ev.
  destruct (maxDepth <? Entry.depth cur) eqn:Ed.
  { left. apply Nat.ltb_lt in Ed. split; [right; exact Ed|reflexivity]. }
  apply Nat.ltb_ge in Ed. right.
  destruct (scrapeUrl browse (St.world st) (Entry.url cur) (fetchOptions options))
    as [w [err|result]] eqn:Ef.
  { left. repeat split; try assumption. exists w, err.
    split; [reflexivity|]. rewrite <- app_assoc. reflexivity. }
  right. destruct (maxDepth <=? Entry.depth cur) eqn:Ed'.
  - left. apply Nat.leb_le in Ed'. repeat split; [assumption|lia|].
    exists w, result. split; reflexivity.
  - right. apply Nat.leb_gt in Ed'. repeat split; [assumption|lia|].
    exists w, result. split; reflexivity.
Qed.

Lemma cond_true (st : St.t W) :
  cond st = true ->
  exists cur rest, St.queue st = cur :: rest
    /\ length (St.results st) < maxPages.
Proof.
  unfold loopCond. intros H. apply andb_prop in H as [Hq Hr].
  apply Nat.ltb_lt in Hr. destruct (St.queue st) as [|cur rest]; [discriminate|].
  eauto.
Qed.

(** Case analysis on a turn of the loop. *)
Ltac turn st Hc :=
  let cur := fresh "cur" in
  let rest := fresh "rest" in
  let Hq := fresh "Hq" in
  let Hlt := fresh "Hlt" in
  let Hv := fresh "Hv" in
  let Hd := fresh "Hd" in
  let w := fresh "w" in
  let err := fresh "err" in
  let result := fresh "result" in
  let Hf := fresh "Hf" in
  destruct (cond_true st Hc) as (cur & rest & Hq & Hlt);
  destruct (iteration_cases st cur rest Hq)
    as [[Hd ->]
       |[(Hv & Hd & w & err & Hf & ->)
        |[(Hv & Hd & w & result & Hf & ->)
         |(Hv & Hd & w & result & Hf & ->)]]];
  simpl.

(** The page bound holds throughout. *)
Lemma Reached_results_bound st0 st :
  length (St.results st0) <= maxPages ->
  Reached newURL browse rev options startDomain st0 st ->
  length (St.results st) <= maxPages.
Proof.
  intros H0 Hr. induction Hr as [|st Hr IH Hc]; [exact H0|].
  turn st Hc; rewrite ?length_app; simpl; lia.
Qed.

Lemma Reached_distinctPages st0 st :
  distinctPages st0 ->
  Reached newURL browse rev options startDomain st0 st ->
  distinctPages st.
Proof.
  intros H0 Hr. induction Hr as [|st Hr [IH1 IH2] Hc]; [exact H0|].
  unfold distinctPages. turn st Hc.
  - auto.
  - split; [assumption|]. intros p Hp. apply elem_of_union_r. auto.
  - apply scrapeUrl_url in Hf. split.
    + rewrite fmap_app. simpl. apply NoDup_app. repeat split; [assumption| |].
      * intros x Hx Hx'. apply list_elem_of_singleton in Hx'. subst x.
        apply list_elem_of_fmap in Hx as (p & Hp & Hin).
        apply Hv. rewrite <- Hf, Hp. auto.
      * apply NoDup_singleton.
    + intros p Hp. apply elem_of_app in Hp as [Hp|Hp].
      * apply elem_of_union_r. auto.
      * apply list_elem_of_singleton in Hp. subst p. rewrite Hf.
        apply elem_of_union_l, elem_of_singleton. reflexivity.
  - apply scrapeUrl_url in Hf. split.
    + rewrite fmap_app. simpl. apply NoDup_app. repeat split; [assumption| |].
      * intros x Hx Hx'. apply list_elem_of_singleton in Hx'. subst x.
        apply list_elem_of_fmap in Hx as (p & Hp & Hin).
        apply Hv. rewrite <- Hf, Hp. auto.
      * apply NoDup_singleton.
    + intros p Hp. apply elem_of_app in Hp as [Hp|Hp].
      * apply elem_of_union_r. auto.
      * apply list_elem_of_singleton in Hp. subst p. rewrite Hf.
        apply elem_of_union_l, elem_of_singleton. reflexivity.
Qed.

(** The console reports one visit per fetch and one failure per failed
    fetch. *)
Lemma visitsLogged_app l l' :
  visitsLogged (l ++ l') = visitsLogged l + visitsLogged l'.
Proof. unfold visitsLogged. rewrite List.filter_app, length_app. reflexivity. Qed.

Lemma failuresLogged_app l l' :
  failuresLogged (l ++ l') = failuresLogged l + failuresLogged l'.
Proof. unfold failuresLogged. rewrite List.filter_app, length_app. reflexivity. Qed.

Lemma visitsLogged_cons x l :
  visitsLogged (x :: l)
  = (match x with LogVisit _ _ _ _ => 1 | _ => 0 end) + visitsLogged l.
Proof. destruct x; reflexivity. Qed.

Lemma failuresLogged_cons x l :
  failuresLogged (x :: l)
  = (match x with LogFailed _ _ => 1 | _ => 0 end) + failuresLogged l.
Proof. destruct x; reflexivity. Qed.

Lemma Reached_logged st0 st :
  length (St.results st0) + failuresLogged (St.console st0)
  = visitsLogged (St.console st0) ->
  Reached newURL browse rev options startDomain st0 st ->
  length (St.results st) + failuresLogged (St.console st)
  = visitsLogged (St.console st).
Proof.
  intros H0 Hr. induction Hr as [|st Hr IH Hc]; [exact H0|].
  turn st Hc;
    rewrite ?visitsLogged_app, ?failuresLogged_app, ?length_app,
      ?visitsLogged_cons, ?failuresLogged_cons;
    change (visitsLogged []) with 0; change (failuresLogged []) with 0;
    simpl; lia.
Qed.

(** A URL whose fetch failed is visited and is not the URL of a page. *)
Lemma Reached_failed_absent st0 st :
  distinctPages st0 ->
  (forall u err, LogFailed u err ∈ St.console st0 ->
     u ∈ St.visited st0 /\ forall p, p ∈ St.results st0 -> url p <> u) ->
  Reached newURL browse rev options startDomain st0 st ->
  forall u err, LogFailed u err ∈ St.console st ->
    u ∈ St.visited st /\ forall p, p ∈ St.results st -> url p <> u.
Proof.
  intros Hd0 H0 Hr. induction Hr as [|st Hr IH Hc]; [exact H0|].
  destruct (Reached_distinctPages st0 st Hd0 Hr) as [_ Hvis].
  turn st Hc; intros u' err' Hin.
  - exact (IH _ _ Hin).
  - apply elem_of_app in Hin as [Hin|Hin].
    + destruct (IH _ _ Hin). split; [apply elem_of_union_r|]; assumption.
    + apply elem_of_cons in Hin as [Hin|Hin]; [discriminate|].
      apply list_elem_of_singleton in Hin. injection Hin as -> ->. split.
      * apply elem_of_union_l, elem_of_singleton. reflexivity.
      * intros p Hp E. apply Hv. rewrite <- E. auto.
  - rewrite elem_of_app, list_elem_of_singleton in Hin.
    destruct Hin as [Hin|Hin]; [|discriminate].
    destruct (IH _ _ Hin) as [Hu Hp]. split; [apply elem_of_union_r, Hu|].
    intros p Hp'. apply elem_of_app in Hp' as [Hp'|Hp']; [auto|].
    apply list_elem_of_singleton in Hp'. subst p.
    rewrite (scrapeUrl_url _ _ _ _ _ Hf). intros <-. contradiction.
  - rewrite elem_of_app, list_elem_of_singleton in Hin.
    destruct Hin as [Hin|Hin]; [|discriminate].
    destruct (IH _ _ Hin) as [Hu Hp]. split; [apply elem_of_union_r, Hu|].
    intros p Hp'. apply elem_of_app in Hp' as [Hp'|Hp']; [auto|].
    apply list_elem_of_singleton in Hp'. subst p.
    rewrite (scrapeUrl_url _ _ _ _ _ Hf). intros <-. contradiction.
Qed.

(** *** The frontier *)

(** The [for] loop appends entries only: each is a filtered link that is
    not visited, one level below its page. *)
Lemma enqueue_entries visited n d links q :
  exists new,
    fold_left (enqueueLink options visited n d) links q = q ++ new
    /\ forall e, e ∈ new ->
         Entry.url e ∈ links /\ (Entry.url e ∉ visited)
         /\ Entry.depth e = d + 1.
Proof.
  revert q. induction links as [|l links IH]; intros q; simpl.
  - exists []. split; [rewrite app_nil_r; reflexivity|].
    intros e He. apply elem_of_nil in He. contradiction.
  - unfold enqueueLink at 2.
    destruct (bool_decide (l ∈ visited)) eqn:Ev; simpl.
    + destruct (IH q) as (new & -> & Hnew). exists new. split; [reflexivity|].
      intros e He. destruct (Hnew e He) as (? & ? & ?).
      repeat split; [apply list_elem_of_further|..]; assumption.
    + apply bool_decide_eq_false_1 in Ev.
      destruct (n + length q <? maxPages * 2).
      * destruct (IH (q ++ [Entry.mk l (d + 1)])) as (new & -> & Hnew).
        exists (Entry.mk l (d + 1) :: new). split; [rewrite <- app_assoc; reflexivity|].
        intros e He. apply elem_of_cons in He as [->|He]; simpl.
        -- repeat split; [apply list_elem_of_here|assumption].
        -- destruct (Hnew e He) as (? & ? & ?).
           repeat split; [apply list_elem_of_further|..]; assumption.
      * destruct (IH q) as (new & -> & Hnew). exists new. split; [reflexivity|].
        intros e He. destruct (Hnew e He) as (? & ? & ?).
        repeat split; [apply list_elem_of_further|..]; assumption.
Qed.

(** The [for] loop keeps pages plus queue within twice the page bound,
    after every link. *)
Lemma enqueue_bound visited n d links q :
  n + length q <= maxPages * 2 ->
  n + length (fold_left (enqueueLink options visited n d) links q)
  <= maxPages * 2.
Proof.
  revert q. induction links as [|l links IH]; intros q Hq; simpl; [exact Hq|].
  apply IH. unfold enqueueLink.
  destruct (negb (bool_decide (l ∈ visited))); simpl; [|exact Hq].
  destruct (n + length q <? maxPages * 2) eqn:E; [|exact Hq].
  apply Nat.ltb_lt in E. rewrite length_app. simpl. lia.
Qed.

Lemma Reached_frontier_bound st0 st :
  length (St.results st0) + length (St.queue st0) <= maxPages * 2 ->
  Reached newURL browse rev options startDomain st0 st ->
  length (St.results st) + length (St.queue st) <= maxPages * 2.
Proof.
  intros H0 Hr. induction Hr as [|st Hr IH Hc]; [exact H0|].
  turn st Hc; rewrite Hq in IH; simpl in IH.
  - lia.
  - lia.
  - rewrite length_app. simpl. lia.
  - apply enqueue_bound. rewrite length_app. simpl. lia.
Qed.

(** *** The link counter *)

Lemma depthLogged_app l l' u :
  depthLogged (l ++ l') u
  = match depthLogged l u with
    | Some d => Some d
    | None => depthLogged l' u
    end.
Proof.
  induction l as [|x l IH]; simpl; [reflexivity|].
  destruct x; try exact IH. destruct (String.eqb url0 u); [reflexivity|exact IH].
Qed.

Lemma expansionSize_app console l' p :
  is_Some (depthLogged console (url p)) ->
  expansionSize newURL rev options startDomain (console ++ l') p
  = expansionSize newURL rev options startDomain console p.
Proof.
  intros [d Hd]. unfold expansionSize. rewrite depthLogged_app, Hd. reflexivity.
Qed.

Lemma expansionSize_sum_app console l' (ps : list ScrapeResult) :
  (forall p, p ∈ ps -> is_Some (depthLogged console (url p))) ->
  sum_list_with (expansionSize newURL rev options startDomain (console ++ l')) ps
  = sum_list_with (expansionSize newURL rev options startDomain console) ps.
Proof.
  induction ps as [|p ps IH]; intros H; [reflexivity|].
  cbn [sum_list_with]. rewrite expansionSize_app by (apply H, list_elem_of_here).
  rewrite IH; [reflexivity|]. intros q Hq. apply H, list_elem_of_further, Hq.
Qed.

Lemma expansionSize_new console i m d u err_or_not p :
  depthLogged console u = None -> url p = u ->
  expansionSize newURL rev options startDomain
    (console ++ LogVisit i m d u :: err_or_not) p
  = if d <? maxDepth
    then length (filterLinks newURL rev (orDefault (links p) []) u
                   startDomain allowSub)
    else 0.
Proof.
  intros Hn Hu. unfold expansionSize. rewrite depthLogged_app, Hu, Hn. simpl.
  rewrite String.eqb_refl. reflexivity.
Qed.

Lemma Reached_accounted st0 st :
  accounted newURL rev options startDomain st0 ->
  Reached newURL browse rev options startDomain st0 st ->
  accounted newURL rev options startDomain st.
Proof.
  intros H0 Hr. induction Hr as [|st Hr (IH1 & IH2 & IH3) Hc]; [exact H0|].
  unfold accounted.
  assert (Hlog : forall i m d u tl u',
             is_Some (depthLogged (St.console st ++ LogVisit i m d u :: tl) u') ->
             (forall u'', is_Some (depthLogged tl u'') -> u'' = u) ->
             u' ∈ {[u]} ∪ St.visited st).
  { intros i m d u tl u' Hs Htl. rewrite depthLogged_app in Hs.
    destruct (depthLogged (St.console st) u') eqn:E.
    - apply elem_of_union_r, IH2. rewrite E. eauto.
    - simpl in Hs. destruct (String.eqb u u') eqn:E'.
      + apply String.eqb_eq in E'. subst. apply elem_of_union_l, elem_of_singleton.
        reflexivity.
      + rewrite (Htl _ Hs). apply elem_of_union_l, elem_of_singleton. reflexivity. }
  assert (Hnone : forall u, u ∉ St.visited st -> depthLogged (St.console st) u = None).
  { intros u Hu. destruct (depthLogged (St.console st) u) eqn:E; [|reflexivity].
    exfalso. apply Hu, IH2. rewrite E. eauto. }
  turn st Hc.
  - auto.
  - repeat split.
    + intros p Hp. rewrite depthLogged_app.
      destruct (IH1 p Hp) as [d ->]. eauto.
    + intros u' Hs. apply (Hlog _ _ _ _ _ _ Hs). simpl. intros u'' [? ?].
      discriminate.
    + rewrite expansionSize_sum_app by exact IH1. exact IH3.
  - pose proof (scrapeUrl_url _ _ _ _ _ Hf) as Hu. repeat split.
    + intros p Hp. rewrite depthLogged_app. apply elem_of_app in Hp as [Hp|Hp].
      * destruct (IH1 p Hp) as [d ->]. eauto.
      * apply list_elem_of_singleton in Hp. subst p. rewrite Hu, (Hnone _ Hv).
        simpl. rewrite String.eqb_refl. eauto.
    + intros u' Hs. apply (Hlog _ _ _ _ _ _ Hs). simpl. intros u'' [? ?].
      discriminate.
    + rewrite sum_list_with_app, expansionSize_sum_app by exact IH1.
      cbn [sum_list_with]. rewrite (expansionSize_new _ _ _ _ _ [] _ (Hnone _ Hv) Hu).
      rewrite Hd, Nat.ltb_irrefl. lia.
  - pose proof (scrapeUrl_url _ _ _ _ _ Hf) as Hu. repeat split.
    + intros p Hp. rewrite depthLogged_app. apply elem_of_app in Hp as [Hp|Hp].
      * destruct (IH1 p Hp) as [d ->]. eauto.
      * apply list_elem_of_singleton in Hp. subst p. rewrite Hu, (Hnone _ Hv).
        simpl. rewrite String.eqb_refl. eauto.
    + intros u' Hs. apply (Hlog _ _ _ _ _ _ Hs). simpl. intros u'' [? ?].
      discriminate.
    + rewrite sum_list_with_app, expansionSize_sum_app by exact IH1.
      cbn [sum_list_with]. rewrite (expansionSize_new _ _ _ _ _ [] _ (Hnone _ Hv) Hu).
      apply Nat.ltb_lt in Hd. rewrite Hd. lia.
Qed.

End LoopFacts.

(** *** Whole runs *)

Lemma finish_fields rev (st : St.t W) :
  St.world (finish rev st) = St.world st
  /\ St.visited (finish rev st) = St.visited st
  /\ St.queue (finish rev st) = St.queue st
  /\ St.results (finish rev st) = St.results st
  /\ St.linksDiscovered (finish rev st) = St.linksDiscovered st
  /\ exists tl, St.console (finish rev st) = St.console st ++ tl
       /\ visitsLogged tl = 0 /\ failuresLogged tl = 0
       /\ forall u err, LogFailed u err ∉ tl.
Proof.
  destruct rev; simpl; repeat split; try reflexivity.
  - exists []. rewrite app_nil_r. repeat split.
    intros u err H. apply elem_of_nil in H. contradiction.
  - eexists. repeat split; try reflexivity.
    intros u err H. apply list_elem_of_singleton in H. discriminate.
Qed.

Lemma resultOf_finish rev (st : St.t W) : resultOf (finish rev st) = resultOf st.
Proof. destruct rev; reflexivity. Qed.

(** [crawlUrl] returns exactly when the start URL parses, and then what the
    loop leaves. *)
Lemma crawlRun_Some rev w startUrl options u :
  newURL startUrl None = Some u ->
  crawlRun newURL browse rev w startUrl options
  = Some (finish rev (crawlLoop newURL browse rev options (hostname u)
                        (initial w startUrl))).
Proof. unfold crawlRun. intros ->. reflexivity. Qed.

Lemma crawlRun_inv rev w startUrl options st :
  crawlRun newURL browse rev w startUrl options = Some st ->
  exists u, newURL startUrl None = Some u
    /\ st = finish rev (crawlLoop newURL browse rev options (hostname u)
                          (initial w startUrl)).
Proof.
  unfold crawlRun. destruct (newURL startUrl None) as [u|]; [|discriminate].
  intros [= <-]. eauto.
Qed.

Lemma crawlUrl_inv rev w startUrl options r :
  crawlUrl newURL browse rev w startUrl options = Some r ->
  exists u, newURL startUrl None = Some u
    /\ r = resultOf (crawlLoop newURL browse rev options (hostname u)
                       (initial w startUrl)).
Proof.
  unfold crawlUrl. destruct (crawlRun _ _ _ _ _ _) as [st|] eqn:E; [|discriminate].
  apply crawlRun_inv in E as (u & Hu & ->). intros [= <-].
  exists u. rewrite resultOf_finish. auto.
Qed.

(** A run computed by unrolling the loop. *)
Lemma crawlUrl_unroll n rev w startUrl options u :
  newURL startUrl None = Some u ->
  loopCond options
    (unroll newURL browse rev options (hostname u) n (initial w startUrl))
  = false ->
  crawlRun newURL browse rev w startUrl options
  = Some (finish rev (unroll newURL browse rev options (hostname u) n
                        (initial w startUrl)))
  /\ crawlUrl newURL browse rev w startUrl options
     = Some (resultOf (unroll newURL browse rev options (hostname u) n
                         (initial w startUrl))).
Proof.
  intros Hu Hn. unfold crawlUrl. rewrite (crawlRun_Some _ _ _ _ _ Hu).
  rewrite (crawlLoop_unroll _ _ _ n _ Hn). simpl. rewrite resultOf_finish. auto.
Qed.

(** C1. The result [crawlUrl] returns has at most [maxPages] pages. *)
Theorem crawl_pages_bound rev w startUrl options r :
  crawlUrl newURL browse rev w startUrl options = Some r ->
  length (pages r) <= orDefault (CrawlOptions.maxPages options) 10.
Proof.
  intros H. apply crawlUrl_inv in H as (u & _ & ->). simpl.
  apply (Reached_results_bound rev options (hostname u) (initial w startUrl)).
  - simpl. lia.
  - apply crawlLoop_Reached.
Qed.

(** C4. The pages returned have pairwise distinct URLs: every page
    fetched is in the visited set, and an entry whose URL is visited is
    dropped from the queue with no fetch and no other change. *)
Theorem crawl_pages_distinct rev w startUrl options :
  (forall r, crawlUrl newURL browse rev w startUrl options = Some r ->
             NoDup (url <$> pages r))
  /\ (forall st, crawlRun newURL browse rev w startUrl options = Some st ->
                 forall p, p ∈ St.results st -> url p ∈ St.visited st)
  /\ (forall startDomain (st : St.t W) cur rest,
        St.queue st = cur :: rest -> Entry.url cur ∈ St.visited st ->
        iteration newURL browse rev options startDomain st
        = St.mk (St.world st) (St.console st) (St.visited st) rest
            (St.results st) (St.linksDiscovered st)).
Proof.
  assert (H : forall u,
             distinctPages (crawlLoop newURL browse rev options (hostname u)
                              (initial w startUrl))).
  { intros u.
    apply (Reached_distinctPages rev options (hostname u) (initial w startUrl)).
    - split; simpl; [apply NoDup_nil_2|].
      intros p Hp. apply elem_of_nil in Hp. contradiction.
    - apply crawlLoop_Reached. }
  split; [|split].
  - intros r Hr. apply crawlUrl_inv in Hr as (u & _ & ->). apply (H u).
  - intros st Hst. apply crawlRun_inv in Hst as (u & _ & ->).
    destruct (finish_fields rev (crawlLoop newURL browse rev options (hostname u)
                                   (initial w startUrl)))
      as (_ & -> & _ & -> & _).
    apply (H u).
  - intros startDomain st cur rest Hq Hv. unfold iteration. rewrite Hq.
    rewrite bool_decide_eq_true_2 by exact Hv. reflexivity.
Qed.

(** C5. A failed fetch does not end the crawl. Whenever the start URL
    parses, [crawlUrl] returns a result, whatever the fetches do;
    [pagesScraped] is the number of pages, which is the number of visits
    the console reports less the failures it reports; no page has the URL
    of a failed fetch; and a turn of the loop whose fetch fails only marks
    the URL visited and drops the entry: the loop goes on from the rest of
    the queue with the pages and the link count it had. *)
Theorem crawl_survives_failures rev options :
  (forall w startUrl u,
     newURL startUrl None = Some u ->
     exists st,
       crawlRun newURL browse rev w startUrl options = Some st
       /\ crawlUrl newURL browse rev w startUrl options = Some (resultOf st)
       /\ pagesScraped (stats (resultOf st)) = length (pages (resultOf st))
       /\ length (pages (resultOf st)) + failuresLogged (St.console st)
          = visitsLogged (St.console st)
       /\ forall u' err p,
           LogFailed u' err ∈ St.console st -> p ∈ pages (resultOf st) ->
           url p <> u')
  /\ (forall startDomain (st : St.t W) cur rest w' err,
        loopCond options st = true ->
        St.queue st = cur :: rest ->
        Entry.url cur ∉ St.visited st ->
        Entry.depth cur <= orDefault (CrawlOptions.maxDepth options) 2 ->
        scrapeUrl browse (St.world st) (Entry.url cur) (fetchOptions options)
        = (w', inl err) ->
        crawlLoop newURL browse rev options startDomain st
        = crawlLoop newURL browse rev options startDomain
            (St.mk w'
               (St.console st
                ++ [LogVisit (length (St.results st) + 1)
                      (orDefault (CrawlOptions.maxPages options) 10)
                      (Entry.depth cur) (Entry.url cur);
                    LogFailed (Entry.url cur) err])
               ({[Entry.url cur]} ∪ St.visited st) rest
               (St.results st) (St.linksDiscovered st))).
Proof.
  split.
  - intros w startUrl u Hu. eexists. split; [apply (crawlRun_Some _ _ _ _ _ Hu)|].
    split; [unfold crawlUrl; rewrite (crawlRun_Some _ _ _ _ _ Hu); reflexivity|].
    split; [reflexivity|].
    set (fin := crawlLoop newURL browse rev options (hostname u)
                  (initial w startUrl)).
    assert (Hr : Reached newURL browse rev options (hostname u)
                   (initial w startUrl) fin) by apply crawlLoop_Reached.
    destruct (finish_fields rev fin)
      as (_ & _ & _ & Hres & _ & tl & Hc & Hv & Hf & Htl).
    simpl. rewrite Hres, Hc. split.
    + rewrite visitsLogged_app, failuresLogged_app, Hv, Hf.
      pose proof (Reached_logged rev options (hostname u) (initial w startUrl)
                    fin eq_refl Hr) as H.
      lia.
    + intros u' err p Hin Hp. apply elem_of_app in Hin as [Hin|Hin].
      * refine (proj2 (Reached_failed_absent rev options (hostname u)
                         (initial w startUrl) fin _ _ Hr u' err Hin) p Hp).
        -- split; simpl; [apply NoDup_nil_2|].
           intros q Hq. apply elem_of_nil in Hq. contradiction.
        -- simpl. intros u0 err0 H. apply list_elem_of_singleton in H.
           discriminate.
      * destruct (Htl _ _ Hin).
  - intros startDomain st cur rest w' err Hc Hq Hv Hd Hf.
    rewrite (crawlLoop_step rev options startDomain st), Hc. f_equal.
    unfold iteration. rewrite Hq.
    rewrite bool_decide_eq_false_2 by exact Hv.
    apply Nat.ltb_ge in Hd. simpl. rewrite Hd, Hf.
    rewrite <- app_assoc. reflexivity.
Qed.

(** C7. The loop enqueues only filtered links that are not visited, one
    level below their page, and only while pages plus queue are below
    twice [maxPages]; so at every turn the pages fetched plus the queued
    entries that an expansion created are at most twice [maxPages], and
    so are pages plus the whole queue once [maxPages] is not zero. *)
Theorem crawl_frontier_bound rev options startDomain :
  (forall visited n d links q,
     exists new,
       fold_left (enqueueLink options visited n d) links q = q ++ new
       /\ forall e, e ∈ new ->
            Entry.url e ∈ links /\ (Entry.url e ∉ visited)
            /\ Entry.depth e = d + 1)
  /\ (forall visited n d q link,
        enqueueLink options visited n d q link <> q ->
        (link ∉ visited)
        /\ n + length q < 2 * orDefault (CrawlOptions.maxPages options) 10
        /\ enqueueLink options visited n d q link = q ++ [Entry.mk link (d + 1)])
  /\ (forall w startUrl (st : St.t W),
        Reached newURL browse rev options startDomain (initial w startUrl) st ->
        length (St.results st) + length (expansionEntries (St.queue st))
        <= 2 * orDefault (CrawlOptions.maxPages options) 10
        /\ (1 <= orDefault (CrawlOptions.maxPages options) 10 ->
            length (St.results st) + length (St.queue st)
            <= 2 * orDefault (CrawlOptions.maxPages options) 10)).
Proof.
  split; [|split].
  - apply enqueue_entries.
  - intros visited n d q link H. unfold enqueueLink in *.
    destruct (bool_decide (link ∈ visited)) eqn:Ev; simpl in *; [contradiction|].
    apply bool_decide_eq_false_1 in Ev.
    destruct (n + length q <? _) eqn:E; [|contradiction].
    apply Nat.ltb_lt in E. repeat split; [assumption|lia].
  - intros w startUrl st Hr.
    destruct (orDefault (CrawlOptions.maxPages options) 10) as [|m] eqn:Em.
    + assert (st = initial w startUrl) as ->.
      { destruct Hr as [|st Hr Hc]; [reflexivity|].
        unfold loopCond in Hc. rewrite Em in Hc.
        apply andb_prop in Hc as [_ Hc]. discriminate. }
      simpl. split; lia.
    + pose proof (Reached_frontier_bound rev options startDomain
                    (initial w startUrl) st) as H.
      rewrite Em in H. specialize (H ltac:(simpl; lia) Hr).
      pose proof (List.filter_length_le (fun e => 0 <? Entry.depth e) (St.queue st)).
      unfold expansionEntries. split; lia.
Qed.

(** C8. [linksDiscovered] is the sum, over the pages returned, of the size
    of the filtered link list of each page the console reports at a depth
    below [maxDepth] (nothing for the others), every page having been
    reported; and [pagesScraped] is the number of pages. *)
Theorem crawl_links_discovered rev w startUrl options st :
  crawlRun newURL browse rev w startUrl options = Some st ->
  exists u,
    newURL startUrl None = Some u
    /\ linksDiscovered (stats (resultOf st))
       = sum_list_with
           (expansionSize newURL rev options (hostname u) (St.console st))
           (pages (resultOf st))
    /\ (forall p, p ∈ pages (resultOf st) ->
                  is_Some (depthLogged (St.console st) (url p)))
    /\ pagesScraped (stats (resultOf st)) = length (pages (resultOf st)).
Proof.
  intros H. apply crawlRun_inv in H as (u & Hu & ->). exists u.
  split; [exact Hu|].
  set (fin := crawlLoop newURL browse rev options (hostname u)
                (initial w startUrl)).
  destruct (finish_fields rev fin) as (_ & _ & _ & Hres & Hl & tl & Hc & _).
  assert (Ha : accounted newURL rev options (hostname u) fin).
  { apply (Reached_accounted rev options (hostname u) (initial w startUrl)).
    - repeat split; simpl.
      + intros p Hp. apply elem_of_nil in Hp. contradiction.
      + intros u' [d Hd]. discriminate.
    - apply crawlLoop_Reached. }
  destruct Ha as (A1 & _ & A3). simpl. rewrite Hres, Hl, Hc.
  split; [|split; [|reflexivity]].
  - rewrite (expansionSize_sum_app rev options (hostname u)) by exact A1.
    exact A3.
  - intros p Hp. rewrite depthLogged_app. destruct (A1 p Hp) as [d ->]. eauto.
Qed.

(** C9, amended. With [maxPages = 0] and a start URL that parses,
    [crawlUrl] fetches nothing (the world is as it was, no visit is
    reported, nothing is marked visited) and returns no pages and
    [pagesScraped = 0]. *)
Theorem crawl_zero_pages rev w startUrl options u :
  newURL startUrl None = Some u ->
  CrawlOptions.maxPages options = Some 0 ->
  exists st,
    crawlRun newURL browse rev w startUrl options = Some st
    /\ St.world st = w
    /\ visitsLogged (St.console st) = 0
    /\ St.visited st = ∅
    /\ crawlUrl newURL browse rev w startUrl options
       = Some {| pages := [];
                 stats := {| pagesScraped := 0; linksDiscovered := 0 |} |}.
Proof.
  intros Hu H0.
  assert (E : crawlLoop newURL browse rev options (hostname u)
                (initial w startUrl) = initial w startUrl).
  { rewrite crawlLoop_step. unfold loopCond. rewrite H0. simpl. reflexivity. }
  eexists. split; [apply (crawlRun_Some _ _ _ _ _ Hu)|].
  unfold crawlUrl. rewrite (crawlRun_Some _ _ _ _ _ Hu), E.
  destruct rev; simpl; repeat split; reflexivity.
Qed.

(** C2, amended. A page dequeued at depth [maxDepth] is fetched and added
    to the pages, and the turn touches neither the link count nor the
    queue beyond dropping the entry; and with [maxDepth = 0], [maxPages]
    at least 1 and a start URL that parses and can be fetched, the result
    holds exactly the start page. *)
Theorem crawl_depth_bound_page rev options :
  (forall startDomain (st : St.t W) cur rest w' result,
     St.queue st = cur :: rest ->
     Entry.url cur ∉ St.visited st ->
     Entry.depth cur = orDefault (CrawlOptions.maxDepth options) 2 ->
     scrapeUrl browse (St.world st) (Entry.url cur) (fetchOptions options)
     = (w', inr result) ->
     iteration newURL browse rev options startDomain st
     = St.mk w'
         (St.console st
          ++ [LogVisit (length (St.results st) + 1)
                (orDefault (CrawlOptions.maxPages options) 10)
                (Entry.depth cur) (Entry.url cur)])
         ({[Entry.url cur]} ∪ St.visited st) rest
         (St.results st ++ [result]) (St.linksDiscovered st))
  /\ (forall w startUrl u w' page,
        newURL startUrl None = Some u ->
        CrawlOptions.maxDepth options = Some 0 ->
        1 <= orDefault (CrawlOptions.maxPages options) 10 ->
        scrapeUrl browse w startUrl (fetchOptions options) = (w', inr page) ->
        crawlUrl newURL browse rev w startUrl options
        = Some {| pages := [page];
                  stats := {| pagesScraped := 1; linksDiscovered := 0 |} |}).
Proof.
  split.
  - intros startDomain st cur rest w' result Hq Hv Hd Hf.
    unfold iteration. rewrite Hq, bool_decide_eq_false_2 by exact Hv.
    rewrite Hd, Nat.ltb_irrefl. simpl. rewrite <- Hd, Hf, Nat.leb_refl.
    reflexivity.
  - intros w startUrl u w' page Hu Hd Hp Hf.
    unfold crawlUrl. rewrite (crawlRun_Some _ _ _ _ _ Hu). simpl.
    rewrite resultOf_finish, crawlLoop_step.
    assert (Hc : loopCond options (initial w startUrl) = true).
    { unfold loopCond. simpl. apply Nat.ltb_lt. lia. }
    rewrite Hc. unfold iteration. simpl. rewrite Hd. simpl. rewrite Hf. simpl.
    rewrite crawlLoop_step. unfold loopCond. simpl. reflexivity.
Qed.

End CrawlFacts.

(** ** The properties on the small site *)

Lemma start_parses : WebURL.newURL Site.start None = Some Site.startURL.
Proof. vm_compute. reflexivity. Qed.

(** Thirty turns are enough for every run on the site. *)
Lemma site_run rev pages depth :
  loopCond (Site.opts pages depth)
    (unroll WebURL.newURL Site.browse rev (Site.opts pages depth)
       "example.com" 30 (initial 0 Site.start)) = false ->
  Site.crawl rev pages depth
  = Some (resultOf (unroll WebURL.newURL Site.browse rev (Site.opts pages depth)
                      "example.com" 30 (initial 0 Site.start))).
Proof.
  intros H.
  apply (crawlUrl_unroll WebURL.newURL Site.browse 30 rev 0 Site.start
           (Site.opts pages depth) Site.startURL start_parses H).
Qed.

(** C1 on the site: with [maxPages = 3] the crawl stops at three pages. *)
Lemma crawl_pages_bound_witness :
  exists r, Site.crawl Rev1 3 2 = Some r
    /\ url <$> pages r
       = ["https://example.com/start"; "https://example.com/b";
          "https://example.com/c"]
    /\ length (pages r) <= 3.
Proof.
  eexists. split; [apply site_run; vm_compute; reflexivity|].
  split; [vm_compute; reflexivity|].
  apply (crawl_pages_bound WebURL.newURL Site.browse Rev1 0 Site.start
           (Site.opts 3 2)).
  apply site_run. vm_compute. reflexivity.
Defined.

(** C2 as stated fails: with [maxPages = 0] a crawl with [maxDepth = 0]
    returns no page, although the start page can be fetched. *)
Lemma crawl_depth_zero_counterexample :
  ~ depthZeroOnePage WebURL.newURL Site.browse Rev1 0 Site.start (Site.opts 0 0).
Proof.
  intros H. edestruct H as (r & Hr & Hp); [reflexivity|vm_compute; reflexivity|].
  change (Site.crawl Rev1 0 0 = Some r) in Hr.
  rewrite site_run in Hr by (vm_compute; reflexivity).
  apply (inj Some) in Hr. subst r. vm_compute in Hp. discriminate.
Qed.

(** C2, amended, on the site: with [maxDepth = 0] and [maxPages = 5] the
    start page alone is returned, with its six links untouched. *)
Lemma crawl_depth_bound_page_witness :
  exists page,
    Site.crawl Rev1 5 0
    = Some {| pages := [page];
              stats := {| pagesScraped := 1; linksDiscovered := 0 |} |}
    /\ url page = Site.start
    /\ length (orDefault (links page) []) = 6.
Proof.
  eexists. split.
  - eapply (proj2 (crawl_depth_bound_page WebURL.newURL Site.browse Rev1
                     (Site.opts 5 0))
              0 Site.start Site.startURL).
    + exact start_parses.
    + reflexivity.
    + simpl. lia.
    + vm_compute. reflexivity.
  - split; reflexivity.
Defined.

(** C4 on the site: page [b] is linked from two pages and fetched once. *)
Lemma crawl_pages_distinct_witness :
  exists r, Site.crawl Rev2 10 2 = Some r
    /\ url <$> pages r
       = ["https://example.com/start"; "https://example.com/b";
          "https://example.com/c"; "https://example.com/d";
          "https://example.com/e"]
    /\ NoDup (url <$> pages r).
Proof.
  eexists. split; [apply site_run; vm_compute; reflexivity|].
  split; [vm_compute; reflexivity|].
  apply (proj1 (crawl_pages_distinct WebURL.newURL Site.browse Rev2 0 Site.start
                  (Site.opts 10 2))).
  apply site_run. vm_compute. reflexivity.
Defined.

(** C5 on the site: the second of the five URLs queued cannot be loaded;
    the other four pages are returned. *)
Lemma crawl_survives_failures_witness :
  exists st,
    crawlRun WebURL.newURL Site.browse Rev1 0 Site.start (Site.opts 10 1)
    = Some st
    /\ Site.crawl Rev1 10 1 = Some (resultOf st)
    /\ url <$> pages (resultOf st)
       = ["https://example.com/start"; "https://example.com/b";
          "https://example.com/c"; "https://example.com/d"]
    /\ pagesScraped (stats (resultOf st)) = 4
    /\ visitsLogged (St.console st) = 5
    /\ failuresLogged (St.console st) = 1.
Proof.
  destruct (proj1 (crawl_survives_failures WebURL.newURL Site.browse Rev1
                     (Site.opts 10 1))
              0 Site.start Site.startURL start_parses)
    as (st & Hrun & Hres & Hn & Hlog & Habsent).
  exists st. split; [exact Hrun|]. split; [exact Hres|].
  destruct (crawlUrl_unroll WebURL.newURL Site.browse 30 Rev1 0 Site.start
              (Site.opts 10 1) Site.startURL start_parses)
    as [E _]; [vm_compute; reflexivity|].
  rewrite E in Hrun. apply (inj Some) in Hrun. subst st.
  repeat split; vm_compute; reflexivity.
Defined.

(** C7 on the site: with [maxPages = 2] the start page offers five links
    and three are queued, which fills the frontier to four. *)
Lemma crawl_frontier_bound_witness :
  exists st,
    Reached WebURL.newURL Site.browse Rev1 (Site.opts 2 2) "example.com"
      (initial 0 Site.start) st
    /\ length (St.results st) = 1
    /\ length (St.queue st) = 3
    /\ length (St.results st) + length (expansionEntries (St.queue st)) <= 4.
Proof.
  exists (iteration WebURL.newURL Site.browse Rev1 (Site.opts 2 2) "example.com"
            (initial 0 Site.start)).
  assert (Hr : Reached WebURL.newURL Site.browse Rev1 (Site.opts 2 2)
                 "example.com" (initial 0 Site.start)
                 (iteration WebURL.newURL Site.browse Rev1 (Site.opts 2 2)
                    "example.com" (initial 0 Site.start))).
  { apply reached_turn; [apply reached_start|vm_compute; reflexivity]. }
  split; [exact Hr|]. split; [vm_compute; reflexivity|].
  split; [vm_compute; reflexivity|].
  apply (proj1 (proj2 (proj2 (crawl_frontier_bound WebURL.newURL Site.browse
                                Rev1 (Site.opts 2 2) "example.com"))
                  0 Site.start _ Hr)).
Defined.

(** C8 on the site: the start page adds five links, [b] and [c] one each,
    [d] none, and [e], fetched at the depth bound, is not expanded. *)
Lemma crawl_links_discovered_witness :
  exists st,
    crawlRun WebURL.newURL Site.browse Rev1 0 Site.start (Site.opts 10 2)
    = Some st
    /\ (exists u,
          WebURL.newURL Site.start None = Some u
          /\ linksDiscovered (stats (resultOf st))
             = sum_list_with
                 (expansionSize WebURL.newURL Rev1 (Site.opts 10 2) (hostname u)
                    (St.console st))
                 (pages (resultOf st))
          /\ (forall p, p ∈ pages (resultOf st) ->
                        is_Some (depthLogged (St.console st) (url p)))
          /\ pagesScraped (stats (resultOf st)) = length (pages (resultOf st)))
    /\ linksDiscovered (stats (resultOf st)) = 7
    /\ expansionSize WebURL.newURL Rev1 (Site.opts 10 2) "example.com"
         (St.console st) <$> pages (resultOf st)
       = [5; 1; 1; 0; 0].
Proof.
  destruct (crawlUrl_unroll WebURL.newURL Site.browse 30 Rev1 0 Site.start
              (Site.opts 10 2) Site.startURL start_parses)
    as [E _]; [vm_compute; reflexivity|].
  eexists. split; [exact E|]. split.
  - exact (crawl_links_discovered WebURL.newURL Site.browse Rev1 0 Site.start
             (Site.opts 10 2) _ E).
  - split; vm_compute; reflexivity.
Defined.

(** C9 as stated fails: on a start URL that does not parse, here one
    without a scheme, [new URL] throws before the loop and the crawler
    returns no result, with [maxPages = 0] as with any other bound. *)
Lemma crawl_zero_pages_counterexample :
  ~ zeroPagesResult WebURL.newURL Site.browse Rev1 0 "example.com/start"
      (Site.opts 0 2).
Proof.
  intros H. destruct H as (r & Hr & _); [reflexivity|].
  vm_compute in Hr. discriminate Hr.
Qed.

(** C9, amended, on the site: with [maxPages = 0] nothing is fetched. *)
Lemma crawl_zero_pages_witness :
  exists st,
    crawlRun WebURL.newURL Site.browse Rev2 0 Site.start (Site.opts 0 2)
    = Some st
    /\ St.world st = 0
    /\ visitsLogged (St.console st) = 0
    /\ St.visited st = ∅
    /\ Site.crawl Rev2 0 2
       = Some {| pages := [];
                 stats := {| pagesScraped := 0; linksDiscovered := 0 |} |}.
Proof.
  apply (crawl_zero_pages WebURL.newURL Site.browse Rev2 0 Site.start
           (Site.opts 0 2) Site.startURL start_parses eq_refl).
Defined.

(** * Further properties of the crawler *)

Section FilterMore.

Variable newURL : string -> option string -> option URL.

Local Abbreviation step rev cur nb allow :=
  (fun uniqueLinks rawLink =>
     match candidate newURL rev cur nb allow rawLink with
     | Some link => setAdd uniqueLinks link
     | None => uniqueLinks
     end).

Lemma collect_mono rev cur nb allow raw acc link :
  link ∈ acc -> link ∈ fold_left (step rev cur nb allow) raw acc.
Proof.
  revert acc. induction raw as [|r raw IH]; intros acc H; simpl; [exact H|].
  apply IH. destruct (candidate newURL rev cur nb allow r); [|exact H].
  apply (proj2 (setAdd_elem newURL _ _ _)). left. exact H.
Qed.

Lemma collect_complete rev cur nb allow raw acc rawLink link :
  rawLink ∈ raw -> candidate newURL rev cur nb allow rawLink = Some link ->
  link ∈ fold_left (step rev cur nb allow) raw acc.
Proof.
  revert acc. induction raw as [|r raw IH]; intros acc Hin Hc.
  - apply elem_of_nil in Hin. contradiction.
  - simpl. apply elem_of_cons in Hin as [<-|Hin].
    + rewrite Hc. apply collect_mono, (proj2 (setAdd_elem newURL _ _ _)). auto.
    + apply IH; assumption.
Qed.

Lemma setAdd_length s x : length (setAdd s x) <= S (length s).
Proof.
  unfold setAdd. case_bool_decide; [lia|]. rewrite length_app. simpl. lia.
Qed.

Lemma collect_length rev cur nb allow raw acc :
  length (fold_left (step rev cur nb allow) raw acc) <= length acc + length raw.
Proof.
  revert acc. induction raw as [|r raw IH]; intros acc; simpl; [lia|].
  etransitivity; [apply IH|].
  destruct (candidate newURL rev cur nb allow r); [|lia].
  pose proof (setAdd_length acc s). lia.
Qed.

(** X1. What [filterLinks] returns is exactly the links of the raw links
    that pass the tests: each of them, once, and no more links than raw
    links. *)
Theorem filterLinks_exact rev raw cur base allow :
  (forall link,
     link ∈ filterLinks newURL rev raw cur base allow
     <-> exists rawLink,
           rawLink ∈ raw
           /\ candidate newURL rev cur (Str.stripWww base) allow rawLink
              = Some link)
  /\ NoDup (filterLinks newURL rev raw cur base allow)
  /\ length (filterLinks newURL rev raw cur base allow) <= length raw.
Proof.
  split; [|split].
  - intros link. split.
    + apply filterLinks_elem.
    + intros (r & Hr & Hc). apply (collect_complete _ _ _ _ _ _ r); assumption.
  - apply filterLinks_NoDup.
  - apply (collect_length rev cur (Str.stripWww base) allow raw []).
Qed.

Lemma inScope_allow nb urlObj :
  inScope nb false urlObj = true -> inScope nb true urlObj = true.
Proof.
  unfold inScope. rewrite andb_false_l, orb_false_r. intros ->. reflexivity.
Qed.

(** X2. Allowing subdomains only adds links, and what it adds comes
    from subdomain links: a link is returned with subdomains allowed
    exactly when it is returned without them, or it is the link the
    revision makes of a raw link that is not skipped and resolves to a URL
    that is not an asset and whose host is not the base domain but ends
    with a dot and the base domain. *)
Theorem filterLinks_subdomains_add rev raw cur base link :
  link ∈ filterLinks newURL rev raw cur base true
  <-> link ∈ filterLinks newURL rev raw cur base false
      \/ exists rawLink absoluteUrl urlObj,
           rawLink ∈ raw
           /\ skipped rawLink = false
           /\ resolveLink newURL cur rawLink = Some (absoluteUrl, urlObj)
           /\ isAsset rev urlObj = false
           /\ link = match rev with
                     | Rev1 => absoluteUrl
                     | Rev2 => normalized urlObj
                     end
           /\ Str.stripWww (hostname urlObj) <> Str.stripWww base
           /\ Str.endsWith (hostname urlObj) ("." +:+ Str.stripWww base)
              = true.
Proof.
  split.
  - intros H. apply filterLinks_elem in H as (r & Hr & Hc).
    pose proof Hc as Hc'.
    apply candidate_Some in Hc' as (a & u & Hs & Hres & Hin & Ha & Hl).
    destruct (inScope (Str.stripWww base) false u) eqn:E.
    + left. apply (collect_complete _ _ _ _ _ _ r); [exact Hr|].
      unfold candidate. rewrite Hs, Hres, E, Ha, Hl. reflexivity.
    + right. exists r, a, u. split; [exact Hr|]. split; [exact Hs|].
      split; [exact Hres|]. split; [exact Ha|]. split; [exact Hl|].
      unfold inScope in *. rewrite andb_false_l, orb_false_r in E.
      rewrite E in Hin. simpl in Hin. split; [|exact Hin].
      intros Heq. rewrite Heq, String.eqb_refl in E. discriminate.
  - intros [H|(r & a & u & Hr & Hs & Hres & Ha & Hl & _ & Hsub)].
    + apply filterLinks_elem in H as (r & Hr & Hc).
      apply (collect_complete _ _ _ _ _ _ r); [exact Hr|].
      revert Hc. unfold candidate. destruct (skipped r); [discriminate|].
      destruct (resolveLink newURL cur r) as [[a u]|]; [|discriminate].
      destruct (inScope (Str.stripWww base) false u) eqn:E; [|discriminate].
      rewrite (inScope_allow _ _ E). auto.
    + apply (collect_complete _ _ _ _ _ _ r); [exact Hr|].
      unfold candidate. rewrite Hs, Hres. unfold inScope. rewrite Hsub.
      rewrite andb_true_l, orb_true_r, Ha, Hl. reflexivity.
Qed.

(** X3. Every link returned is in scope: it comes from a raw link that
    resolves to a URL whose host, without a leading [www.], is the base
    domain without a leading [www.], or, when subdomains are allowed,
    whose host ends with a dot and that base domain. In the first revision
    the link returned is itself such a URL. *)
Theorem filterLinks_in_scope rev raw cur base allow link :
  link ∈ filterLinks newURL rev raw cur base allow ->
  exists rawLink absoluteUrl urlObj,
    rawLink ∈ raw
    /\ skipped rawLink = false
    /\ resolveLink newURL cur rawLink = Some (absoluteUrl, urlObj)
    /\ link = match rev with Rev1 => absoluteUrl | Rev2 => normalized urlObj end
    /\ (Str.stripWww (hostname urlObj) = Str.stripWww base
        \/ (allow = true
            /\ Str.endsWith (hostname urlObj) ("." +:+ Str.stripWww base)
               = true))
    /\ (rev = Rev1 -> newURL link None = Some urlObj).
Proof.
  intros H. apply filterLinks_elem in H as (r & Hr & Hc).
  apply candidate_Some in Hc as (a & u & Hs & Hres & Hin & _ & Hl).
  exists r, a, u. repeat split; try assumption.
  - unfold inScope in Hin. apply orb_prop in Hin as [Hin|Hin].
    + left. apply String.eqb_eq. exact Hin.
    + right. apply andb_prop in Hin. exact Hin.
  - intros ->. subst link. exact (resolveLink_Some _ _ _ _ _ Hres).
Qed.

Lemma stripWww_www d : Str.stripWww ("www." +:+ d) = d.
Proof. destruct d; reflexivity. Qed.

(** X4. A base domain with a leading [www.] and the same domain without
    it select the same links. *)
Theorem filterLinks_www_base rev raw cur d allow :
  Str.startsWith d "www." = false ->
  filterLinks newURL rev raw cur ("www." +:+ d) allow
  = filterLinks newURL rev raw cur d allow.
Proof.
  intros H. unfold filterLinks. rewrite stripWww_www.
  unfold Str.stripWww. rewrite H. reflexivity.
Qed.

End FilterMore.

(** X4 on the example links. *)
Lemma filterLinks_www_base_witness :
  filterLinks WebURL.newURL Rev1 exampleLinks "https://example.com/start"
    ("www." +:+ "example.com") false
  = filterLinks WebURL.newURL Rev1 exampleLinks "https://example.com/start"
      "example.com" false.
Proof.
  apply (filterLinks_www_base WebURL.newURL Rev1 exampleLinks
           "https://example.com/start" "example.com" false).
  reflexivity.
Defined.

(** Membership in a list that evaluates to a literal. *)
Ltac by_compute := apply (bool_decide_unpack _); vm_compute; exact I.

(** X2 on the example links: the link under [blog.] is returned with
    subdomains allowed and not without them, and it comes from a raw link
    whose host is a subdomain of the base domain. *)
Lemma filterLinks_subdomains_add_witness :
  exists rawLink absoluteUrl urlObj,
    rawLink ∈ exampleLinks
    /\ skipped rawLink = false
    /\ resolveLink WebURL.newURL "https://example.com/start" rawLink
       = Some (absoluteUrl, urlObj)
    /\ isAsset Rev1 urlObj = false
    /\ "https://blog.example.com/c" = absoluteUrl
    /\ Str.stripWww (hostname urlObj) <> Str.stripWww "example.com"
    /\ Str.endsWith (hostname urlObj) ("." +:+ Str.stripWww "example.com")
       = true.
Proof.
  destruct (proj1 (filterLinks_subdomains_add WebURL.newURL Rev1 exampleLinks
                     "https://example.com/start" "example.com"
                     "https://blog.example.com/c")) as [H|H].
  - by_compute.
  - exfalso. revert H. by_compute.
  - exact H.
Defined.

(** X3 on the example links: the relative link is returned resolved, and
    its host is the base domain. *)
Lemma filterLinks_in_scope_witness :
  exists rawLink absoluteUrl urlObj,
    rawLink ∈ exampleLinks
    /\ skipped rawLink = false
    /\ resolveLink WebURL.newURL "https://example.com/start" rawLink
       = Some (absoluteUrl, urlObj)
    /\ "https://example.com/relative" = absoluteUrl
    /\ (Str.stripWww (hostname urlObj) = Str.stripWww "example.com"
        \/ (false = true
            /\ Str.endsWith (hostname urlObj)
                 ("." +:+ Str.stripWww "example.com") = true))
    /\ (Rev1 = Rev1 ->
        WebURL.newURL "https://example.com/relative" None = Some urlObj).
Proof.
  apply (filterLinks_in_scope WebURL.newURL Rev1 exampleLinks
           "https://example.com/start" "example.com" false
           "https://example.com/relative").
  by_compute.
Defined.

Section CrawlMore.

Variable newURL : string -> option string -> option URL.
Context {W : Type}.
Variable browse :
  W -> string -> ScrapeOptions.t -> W * (string + PageData.t).

Lemma skipped_http h : Str.startsWith h "http" = true -> skipped h = false.
Proof.
  intros H. unfold Str.startsWith in H.
  destruct h as [|c h]; [discriminate|].
  destruct c as [[] [] [] [] [] [] [] []]; try discriminate H.
  reflexivity.
Qed.

(** X5. The page [scrapeUrl] returns carries the URL it was asked for;
    its links are empty unless links were asked for, and then each is
    non-empty and starts with [http], so that the guard at the top of
    [filterLinks] skips none of them. *)
Theorem scrapeUrl_result w u options w' result :
  scrapeUrl browse w u options = (w', inr result) ->
  url result = u
  /\ (orDefault (ScrapeOptions.includeLinks options) false = false ->
      links result = Some [])
  /\ forall h, h ∈ orDefault (links result) [] ->
       h <> "" /\ Str.startsWith h "http" = true /\ skipped h = false.
Proof.
  unfold scrapeUrl. destruct (browse w u options) as [w1 [err|page]].
  - discriminate.
  - intros [= _ <-]. simpl. split; [reflexivity|]. split.
    + intros ->. reflexivity.
    + intros h Hh. destruct (orDefault (ScrapeOptions.includeLinks options) false).
      * apply list_elem_of_In, List.filter_In in Hh as [_ Hh].
        apply andb_prop in Hh as [Hne Hp]. repeat split.
        -- intros ->. discriminate.
        -- exact Hp.
        -- apply skipped_http, Hp.
      * apply elem_of_nil in Hh. contradiction.
Qed.

Section LoopMore.

Variable rev : Revision.
Variable options : CrawlOptions.t.
Variable startDomain : string.

Local Abbreviation maxPages := (orDefault (CrawlOptions.maxPages options) 10).
Local Abbreviation maxDepth := (orDefault (CrawlOptions.maxDepth options) 2).
Local Abbreviation allowSub :=
  (orDefault (CrawlOptions.allowSubdomains options) false).
Local Abbreviation loop := (crawlLoop newURL browse rev options startDomain).
Local Abbreviation body := (iteration newURL browse rev options startDomain).
Local Abbreviation cond := (loopCond options).
Local Abbreviation reached :=
  (Reached newURL browse rev options startDomain).

(** Case analysis on a turn of the loop. *)
Ltac loop_turn st Hc :=
  let cur := fresh "cur" in
  let rest := fresh "rest" in
  let Hq := fresh "Hq" in
  let Hlt := fresh "Hlt" in
  let Hv := fresh "Hv" in
  let Hd := fresh "Hd" in
  let w := fresh "w" in
  let err := fresh "err" in
  let result := fresh "result" in
  let Hf := fresh "Hf" in
  destruct (cond_true options st Hc) as (cur & rest & Hq & Hlt);
  destruct (iteration_cases newURL browse rev options startDomain st cur rest Hq)
    as [[Hd ->]
       |[(Hv & Hd & w & err & Hf & ->)
        |[(Hv & Hd & w & result & Hf & ->)
         |(Hv & Hd & w & result & Hf & ->)]]];
  simpl.

Lemma visitDepths_app l l' : visitDepths (l ++ l') = visitDepths l ++ visitDepths l'.
Proof.
  induction l as [|x l IH]; simpl; [reflexivity|].
  destruct x; simpl; rewrite IH; reflexivity.
Qed.

Lemma visitUrls_app l l' : visitUrls (l ++ l') = visitUrls l ++ visitUrls l'.
Proof.
  induction l as [|x l IH]; simpl; [reflexivity|].
  destruct x; simpl; rewrite IH; reflexivity.
Qed.

Lemma depthLogged_visitDepths console u d :
  depthLogged console u = Some d -> d ∈ visitDepths console.
Proof.
  induction console as [|x l IH]; simpl; [discriminate|].
  destruct x; try exact IH. destruct (String.eqb url0 u).
  - intros [= ->]. apply list_elem_of_here.
  - intros H. apply list_elem_of_further, IH, H.
Qed.

(** No entry and no visit lies beyond the depth bound. *)
Lemma Reached_depths st0 st :
  Forall (fun e => Entry.depth e <= maxDepth) (St.queue st0) ->
  Forall (fun d => d <= maxDepth) (visitDepths (St.console st0)) ->
  reached st0 st ->
  Forall (fun e => Entry.depth e <= maxDepth) (St.queue st)
  /\ Forall (fun d => d <= maxDepth) (visitDepths (St.console st)).
Proof.
  intros Hq0 Hc0 Hr. induction Hr as [|st Hr [IHq IHc] Hc]; [auto|].
  loop_turn st Hc; rewrite Hq in IHq; apply Forall_cons in IHq as [Hcur Hrest].
  - auto.
  - split; [exact Hrest|]. rewrite visitDepths_app. apply Forall_app.
    split; [exact IHc|]. simpl. repeat constructor. exact Hd.
  - split; [exact Hrest|]. rewrite visitDepths_app. apply Forall_app.
    split; [exact IHc|]. simpl. repeat constructor. lia.
  - split.
    + destruct (enqueue_entries options
                  ({[Entry.url cur]} ∪ St.visited st)
                  (length (St.results st ++ [result])) (Entry.depth cur)
                  (filterLinks newURL rev (orDefault (links result) [])
                     (Entry.url cur) startDomain allowSub) rest)
        as (new & -> & Hnew).
      apply Forall_app. split; [exact Hrest|].
      apply Forall_forall. intros e He. destruct (Hnew e He) as (_ & _ & ->). lia.
    + rewrite visitDepths_app. apply Forall_app.
      split; [exact IHc|]. simpl. repeat constructor. lia.
Qed.

(** The visited set is the set of URLs the console reports a visit of, and
    none is reported twice. *)
Lemma Reached_visits st0 st :
  St.visited st0 = list_to_set (visitUrls (St.console st0)) ->
  NoDup (visitUrls (St.console st0)) ->
  reached st0 st ->
  St.visited st = list_to_set (visitUrls (St.console st))
  /\ NoDup (visitUrls (St.console st)).
Proof.
  intros Hv0 Hn0 Hr. induction Hr as [|st Hr [IHv IHn] Hc]; [auto|].
  assert (Hnew : forall u tl, u ∉ St.visited st -> visitUrls tl = [] ->
            {[u]} ∪ St.visited st
            = list_to_set (visitUrls (St.console st
                                      ++ LogVisit (length (St.results st) + 1)
                                           maxPages 0 u :: tl))
            /\ NoDup (visitUrls (St.console st
                                 ++ LogVisit (length (St.results st) + 1)
                                      maxPages 0 u :: tl))).
  { intros u tl Hu Htl. rewrite visitUrls_app. simpl. rewrite Htl. split.
    - rewrite list_to_set_app_L, <- IHv. simpl. rewrite union_empty_r_L.
      apply (comm_L (∪)).
    - apply NoDup_app. repeat split; [exact IHn| |apply NoDup_singleton].
      intros x Hx Hx'. apply list_elem_of_singleton in Hx'. subst x.
      apply Hu. rewrite IHv. apply elem_of_list_to_set. exact Hx. }
  assert (Hd0 : forall i m d u tl,
            visitUrls (St.console st ++ LogVisit i m d u :: tl)
            = visitUrls (St.console st ++ LogVisit i m 0 u :: tl)).
  { intros. rewrite !visitUrls_app. reflexivity. }
  loop_turn st Hc.
  - auto.
  - rewrite Hd0. apply Hnew; [exact Hv|reflexivity].
  - rewrite Hd0. apply Hnew; [exact Hv|reflexivity].
  - rewrite Hd0. apply Hnew; [exact Hv|reflexivity].
Qed.

(** *** Breadth first *)

Lemma Reached_levelled st0 st :
  levelled st0 -> reached st0 st -> levelled st.
Proof.
  intros H0 Hr. induction Hr as [|st Hr (S & L1 & Q1 & Q2) Hc]; [exact H0|].
  unfold levelled.
  destruct (cond_true options st Hc) as (cur & rest & Hq & _).
  assert (Hcur : cur ∈ St.queue st) by (rewrite Hq; apply list_elem_of_here).
  assert (Hsub : forall e, e ∈ rest -> e ∈ St.queue st)
    by (intros e He; rewrite Hq; apply list_elem_of_further, He).
  assert (Q1' : StronglySorted le (Entry.depth <$> rest)
                /\ forall e, e ∈ rest -> Entry.depth cur <= Entry.depth e).
  { rewrite Hq, fmap_cons in Q1. apply StronglySorted_cons in Q1 as [Hall Hs].
    split; [exact Hs|]. intros e He. rewrite Forall_forall in Hall.
    apply Hall, list_elem_of_fmap. eauto. }
  destruct Q1' as [Hs Hge].
  assert (Hvisit : forall tl, visitDepths tl = [] ->
            StronglySorted le
              (visitDepths (St.console st
                            ++ LogVisit (length (St.results st) + 1) maxPages
                                 (Entry.depth cur) (Entry.url cur) :: tl))
            /\ forall d, d ∈ visitDepths
                          (St.console st
                           ++ LogVisit (length (St.results st) + 1) maxPages
                                (Entry.depth cur) (Entry.url cur) :: tl) ->
                 d <= Entry.depth cur).
  { intros tl Htl. rewrite visitDepths_app. simpl. rewrite Htl. split.
    - apply StronglySorted_app_2; [|exact S|repeat constructor].
      intros x1 x2 H1 H2. apply list_elem_of_singleton in H2. subst x2.
      apply (L1 x1 cur H1 Hcur).
    - intros d Hd. apply elem_of_app in Hd as [Hd|Hd].
      + apply (L1 d cur Hd Hcur).
      + apply list_elem_of_singleton in Hd. lia. }
  destruct (iteration_cases newURL browse rev options startDomain st cur rest Hq)
    as [[Hd ->]
       |[(Hv & Hd & w & err & Hf & ->)
        |[(Hv & Hd & w & result & Hf & ->)
         |(Hv & Hd & w & result & Hf & ->)]]];
    simpl.
  - repeat split; auto.
  - destruct (Hvisit [LogFailed (Entry.url cur) err] eq_refl) as [S' L'].
    repeat split; auto.
    intros d e Hd' He. specialize (L' d Hd'). specialize (Hge e He). lia.
  - destruct (Hvisit [] eq_refl) as [S' L'].
    repeat split; auto.
    intros d e Hd' He. specialize (L' d Hd'). specialize (Hge e He). lia.
  - destruct (Hvisit [] eq_refl) as [S' L'].
    destruct (enqueue_entries options
                ({[Entry.url cur]} ∪ St.visited st)
                (length (St.results st ++ [result])) (Entry.depth cur)
                (filterLinks newURL rev (orDefault (links result) [])
                   (Entry.url cur) startDomain allowSub) rest)
      as (new & -> & Hnew).
    assert (Hnd : forall e, e ∈ new -> Entry.depth e = Entry.depth cur + 1)
      by (intros e He; apply (Hnew e He)).
    assert (Hrest1 : forall e, e ∈ rest -> Entry.depth e <= Entry.depth cur + 1)
      by (intros e He; apply (Q2 e cur (Hsub e He) Hcur)).
    split; [exact S'|]. split; [|split].
    + intros d e Hd' He. specialize (L' d Hd').
      apply elem_of_app in He as [He|He].
      * specialize (Hge e He). lia.
      * rewrite (Hnd e He). lia.
    + rewrite fmap_app. apply StronglySorted_app_2; [|exact Hs|].
      * intros x1 x2 H1 H2.
        apply list_elem_of_fmap in H1 as (e1 & -> & H1).
        apply list_elem_of_fmap in H2 as (e2 & -> & H2).
        rewrite (Hnd e2 H2). apply Hrest1, H1.
      * clear -Hnd. induction new as [|e new IH]; [constructor|].
        rewrite fmap_cons. apply StronglySorted_cons. split.
        -- apply Forall_forall. intros x Hx.
           apply list_elem_of_fmap in Hx as (e' & -> & He').
           rewrite (Hnd e), (Hnd e'); [lia|apply list_elem_of_further, He'
                                           |apply list_elem_of_here].
        -- apply IH. intros e' He'. apply Hnd, list_elem_of_further, He'.
    + intros e e' He He'.
      apply elem_of_app in He as [He|He]; apply elem_of_app in He' as [He'|He'].
      * apply (Q2 e e' (Hsub e He) (Hsub e' He')).
      * rewrite (Hnd e' He'). specialize (Hrest1 e He). lia.
      * rewrite (Hnd e He). specialize (Hge e' He'). lia.
      * rewrite (Hnd e He), (Hnd e' He'). lia.
Qed.

Lemma accounted_initial (w : W) startUrl :
  accounted newURL rev options startDomain (initial w startUrl).
Proof.
  repeat split; simpl.
  - intros p Hp. apply elem_of_nil in Hp. contradiction.
  - intros u' [d Hd]. discriminate.
Qed.

Lemma Reached_pagesByDepth (w : W) startUrl st :
  reached (initial w startUrl) st -> pagesByDepth st.
Proof.
  intros Hr. induction Hr as [|st Hr IH Hc].
  { intros i j p q di dj _ Hp. simpl in Hp. destruct i; discriminate. }
  destruct (Reached_accounted newURL browse rev options startDomain _ st
              (accounted_initial w startUrl) Hr) as (A1 & A2 & _).
  assert (Hlev : levelled st).
  { apply (Reached_levelled (initial w startUrl)); [|exact Hr].
    unfold levelled. simpl. split; [constructor|].
    split; [intros d e Hd; apply elem_of_nil in Hd; contradiction|].
    split; [repeat constructor|].
    intros e e' He He'. apply list_elem_of_singleton in He, He'. subst. lia. }
  destruct Hlev as (_ & L1 & _ & _).
  assert (Hold : forall tl p d, p ∈ St.results st ->
            depthLogged (St.console st ++ tl) (url p) = Some d ->
            depthLogged (St.console st) (url p) = Some d).
  { intros tl p d Hp. rewrite depthLogged_app.
    destruct (A1 p Hp) as [d' ->]. auto. }
  assert (Hnone : forall u, u ∉ St.visited st ->
            depthLogged (St.console st) u = None).
  { intros u Hu. destruct (depthLogged (St.console st) u) eqn:E; [|reflexivity].
    exfalso. apply Hu, A2. rewrite E. eauto. }
  assert (Hnew : forall w' result i j p q di dj,
            Entry.url (hd (Entry.mk "" 0) (St.queue st)) ∉ St.visited st ->
            hd (Entry.mk "" 0) (St.queue st) ∈ St.queue st ->
            scrapeUrl browse (St.world st)
              (Entry.url (hd (Entry.mk "" 0) (St.queue st)))
              (fetchOptions options) = (w', inr result) ->
            i <= j ->
            (St.results st ++ [result]) !! i = Some p ->
            (St.results st ++ [result]) !! j = Some q ->
            depthLogged
              (St.console st
               ++ [LogVisit (length (St.results st) + 1) maxPages
                     (Entry.depth (hd (Entry.mk "" 0) (St.queue st)))
                     (Entry.url (hd (Entry.mk "" 0) (St.queue st)))])
              (url p) = Some di ->
            depthLogged
              (St.console st
               ++ [LogVisit (length (St.results st) + 1) maxPages
                     (Entry.depth (hd (Entry.mk "" 0) (St.queue st)))
                     (Entry.url (hd (Entry.mk "" 0) (St.queue st)))])
              (url q) = Some dj ->
            di <= dj).
  { intros w' result i j p q di dj Hv Hcur Hf Hij Hp Hq Hdi Hdj.
    pose proof (scrapeUrl_url _ _ _ _ _ _ Hf) as Hu.
    assert (Hres : forall d,
              depthLogged
                (St.console st
                 ++ [LogVisit (length (St.results st) + 1) maxPages
                       (Entry.depth (hd (Entry.mk "" 0) (St.queue st)))
                       (Entry.url (hd (Entry.mk "" 0) (St.queue st)))])
                (url result) = Some d ->
              d = Entry.depth (hd (Entry.mk "" 0) (St.queue st))).
    { intros d. rewrite depthLogged_app, Hu, (Hnone _ Hv). simpl.
      rewrite String.eqb_refl. congruence. }
    apply lookup_app_Some in Hp as [Hp|[Hi Hp]];
      apply lookup_app_Some in Hq as [Hq|[Hj Hq]].
    - apply (IH i j p q di dj Hij Hp Hq).
      + apply (Hold _ _ _ (list_elem_of_lookup_2 _ _ _ Hp) Hdi).
      + apply (Hold _ _ _ (list_elem_of_lookup_2 _ _ _ Hq) Hdj).
    - apply list_lookup_singleton_Some in Hq as [_ <-].
      rewrite (Hres dj Hdj).
      apply L1; [|exact Hcur].
      apply (depthLogged_visitDepths _ (url p)).
      apply (Hold _ _ _ (list_elem_of_lookup_2 _ _ _ Hp) Hdi).
    - apply lookup_lt_Some in Hq. lia.
    - apply list_lookup_singleton_Some in Hp as [_ <-].
      apply list_lookup_singleton_Some in Hq as [_ <-].
      rewrite (Hres di Hdi), (Hres dj Hdj). lia. }
  loop_turn st Hc; rewrite Hq in Hnew; simpl in Hnew.
  - exact IH.
  - intros i j p q di dj Hij Hp Hq' Hdi Hdj.
    apply (IH i j p q di dj Hij Hp Hq').
    + apply (Hold _ _ _ (list_elem_of_lookup_2 _ _ _ Hp) Hdi).
    + apply (Hold _ _ _ (list_elem_of_lookup_2 _ _ _ Hq') Hdj).
  - intros i j p q di dj. apply (Hnew w0 result); auto. apply list_elem_of_here.
  - intros i j p q di dj. apply (Hnew w0 result); auto. apply list_elem_of_here.
Qed.

(** Every queued URL and every page URL is the start URL or a link the
    filter returned for a page fetched before. *)
Lemma Reached_linked (w : W) startUrl st :
  reached (initial w startUrl) st ->
  (forall e, e ∈ St.queue st ->
     Entry.url e = startUrl
     \/ linkedFrom newURL rev options startDomain (St.results st) (Entry.url e))
  /\ (forall p, p ∈ St.results st ->
        url p = startUrl
        \/ linkedFrom newURL rev options startDomain (St.results st) (url p)).
Proof.
  intros Hr. induction Hr as [|st Hr [IHq IHp] Hc].
  { split.
    - intros e He. apply list_elem_of_singleton in He. subst. auto.
    - intros p Hp. apply elem_of_nil in Hp. contradiction. }
  assert (Hmono : forall r u,
            linkedFrom newURL rev options startDomain (St.results st) u ->
            linkedFrom newURL rev options startDomain (St.results st ++ [r]) u).
  { intros r u (page & Hpage & Hu). exists page. split; [|exact Hu].
    apply elem_of_app. auto. }
  loop_turn st Hc; rewrite Hq in IHq.
  - split; [|exact IHp]. intros e He. apply IHq, list_elem_of_further, He.
  - split; [|exact IHp]. intros e He. apply IHq, list_elem_of_further, He.
  - pose proof (scrapeUrl_url _ _ _ _ _ _ Hf) as Hu. split.
    + intros e He. destruct (IHq e (list_elem_of_further _ _ _ He)); auto.
    + intros p Hp. apply elem_of_app in Hp as [Hp|Hp].
      * destruct (IHp p Hp); auto.
      * apply list_elem_of_singleton in Hp. subst p. rewrite Hu.
        destruct (IHq cur (list_elem_of_here _ _)); auto.
  - pose proof (scrapeUrl_url _ _ _ _ _ _ Hf) as Hu. split.
    + intros e He.
      destruct (enqueue_entries options
                  ({[Entry.url cur]} ∪ St.visited st)
                  (length (St.results st ++ [result])) (Entry.depth cur)
                  (filterLinks newURL rev (orDefault (links result) [])
                     (Entry.url cur) startDomain allowSub) rest)
        as (new & Hnew & Hnew').
      rewrite Hnew in He. apply elem_of_app in He as [He|He].
      * destruct (IHq e (list_elem_of_further _ _ _ He)); auto.
      * right. exists result. split; [apply elem_of_app; right;
                                      apply list_elem_of_here|].
        rewrite Hu. apply (Hnew' e He).
    + intros p Hp. apply elem_of_app in Hp as [Hp|Hp].
      * destruct (IHp p Hp); auto.
      * apply list_elem_of_singleton in Hp. subst p. rewrite Hu.
        destruct (IHq cur (list_elem_of_here _ _)); auto.
Qed.

End LoopMore.

Lemma levelled_initial (w : W) startUrl : levelled (initial w startUrl).
Proof.
  unfold levelled. simpl. split; [constructor|].
  split; [intros d e Hd; apply elem_of_nil in Hd; contradiction|].
  split; [repeat constructor|].
  intros e e' He He'. apply list_elem_of_singleton in He, He'. subst. lia.
Qed.

Lemma finish_console rev (st : St.t W) :
  visitDepths (St.console (finish rev st)) = visitDepths (St.console st)
  /\ visitUrls (St.console (finish rev st)) = visitUrls (St.console st)
  /\ forall u, depthLogged (St.console (finish rev st)) u
               = depthLogged (St.console st) u.
Proof.
  destruct rev; simpl; [auto|].
  rewrite visitDepths_app, visitUrls_app, !app_nil_r. repeat split.
  intros u. rewrite depthLogged_app. simpl. destruct (depthLogged _ u); reflexivity.
Qed.

Lemma finish_results rev (st : St.t W) :
  St.results (finish rev st) = St.results st
  /\ St.queue (finish rev st) = St.queue st
  /\ St.visited (finish rev st) = St.visited st
  /\ St.world (finish rev st) = St.world st.
Proof. destruct rev; auto. Qed.

Lemma visitsLogged_visitUrls console :
  visitsLogged console = length (visitUrls console).
Proof.
  induction console as [|x l IH]; [reflexivity|].
  rewrite visitsLogged_cons. destruct x; simpl; rewrite IH; reflexivity.
Qed.

(** X6. No page is fetched beyond the depth bound: every visit the console
    reports, hence every page returned, has a depth of at most [maxDepth],
    and so has every entry ever queued, so that the test
    [depth > maxDepth] on a dequeued entry never holds. *)
Theorem crawl_depth_respected rev w startUrl options st :
  crawlRun newURL browse rev w startUrl options = Some st ->
  Forall (fun d => d <= orDefault (CrawlOptions.maxDepth options) 2)
    (visitDepths (St.console st))
  /\ (forall p, p ∈ St.results st ->
        exists d, depthLogged (St.console st) (url p) = Some d
                  /\ d <= orDefault (CrawlOptions.maxDepth options) 2)
  /\ (forall startDomain st',
        Reached newURL browse rev options startDomain (initial w startUrl) st' ->
        Forall (fun e => Entry.depth e
                         <= orDefault (CrawlOptions.maxDepth options) 2)
          (St.queue st')).
Proof.
  intros H. apply crawlRun_inv in H as (u & Hu & ->).
  set (fin := crawlLoop newURL browse rev options (hostname u)
                (initial w startUrl)).
  assert (Hr : Reached newURL browse rev options (hostname u)
                 (initial w startUrl) fin) by apply crawlLoop_Reached.
  assert (Hd : forall sd st',
             Reached newURL browse rev options sd (initial w startUrl) st' ->
             Forall (fun e => Entry.depth e
                              <= orDefault (CrawlOptions.maxDepth options) 2)
               (St.queue st')
             /\ Forall (fun d => d <= orDefault (CrawlOptions.maxDepth options) 2)
                  (visitDepths (St.console st'))).
  { intros sd st'. apply Reached_depths; simpl.
    - apply Forall_cons. split; [simpl; lia|constructor].
    - constructor. }
  destruct (finish_console rev fin) as (-> & _ & Hdl).
  destruct (finish_results rev fin) as (-> & _).
  destruct (Hd _ _ Hr) as [_ Hv]. split; [exact Hv|]. split.
  - intros p Hp.
    destruct (Reached_accounted newURL browse rev options (hostname u) _ fin
                (accounted_initial rev options (hostname u) w startUrl) Hr)
      as (A1 & _).
    destruct (A1 p Hp) as [d Hd']. exists d. rewrite Hdl. split; [exact Hd'|].
    rewrite Forall_forall in Hv. apply Hv.
    apply (depthLogged_visitDepths _ _ _ Hd').
  - intros sd st' Hr'. apply (Hd sd st' Hr').
Qed.

(** X7. The crawl is breadth first: the depths of the visits the console
    reports never decrease, and the pages are returned in order of depth. *)
Theorem crawl_breadth_first rev w startUrl options st :
  crawlRun newURL browse rev w startUrl options = Some st ->
  StronglySorted le (visitDepths (St.console st)) /\ pagesByDepth st.
Proof.
  intros H. apply crawlRun_inv in H as (u & Hu & ->).
  set (fin := crawlLoop newURL browse rev options (hostname u)
                (initial w startUrl)).
  assert (Hr : Reached newURL browse rev options (hostname u)
                 (initial w startUrl) fin) by apply crawlLoop_Reached.
  destruct (finish_console rev fin) as (Hvd & _ & Hdl).
  destruct (finish_results rev fin) as (Hres & _).
  split.
  - rewrite Hvd.
    apply (Reached_levelled rev options (hostname u) _ fin
             (levelled_initial w startUrl) Hr).
  - pose proof (Reached_pagesByDepth rev options (hostname u) w startUrl fin Hr)
      as Hp.
    intros i j p q di dj. rewrite Hres, !Hdl. apply Hp.
Qed.

(** X8. The crawl stays in scope: every page returned other than the start
    page has the URL that the filter made of a link of a page of the
    result; that link resolves to a URL in scope of the start domain and
    is not an asset by the test of the revision. *)
Theorem crawl_stays_in_scope rev w startUrl options st :
  crawlRun newURL browse rev w startUrl options = Some st ->
  exists u,
    newURL startUrl None = Some u
    /\ forall p, p ∈ St.results st ->
         url p = startUrl
         \/ exists page rawLink absoluteUrl urlObj,
              page ∈ St.results st
              /\ rawLink ∈ orDefault (links page) []
              /\ resolveLink newURL (url page) rawLink
                 = Some (absoluteUrl, urlObj)
              /\ inScope (Str.stripWww (hostname u))
                   (orDefault (CrawlOptions.allowSubdomains options) false)
                   urlObj = true
              /\ isAsset rev urlObj = false
              /\ url p = match rev with
                         | Rev1 => absoluteUrl
                         | Rev2 => normalized urlObj
                         end.
Proof.
  intros H. apply crawlRun_inv in H as (u & Hu & ->). exists u.
  split; [exact Hu|].
  set (fin := crawlLoop newURL browse rev options (hostname u)
                (initial w startUrl)).
  assert (Hr : Reached newURL browse rev options (hostname u)
                 (initial w startUrl) fin) by apply crawlLoop_Reached.
  destruct (finish_results rev fin) as (-> & _).
  destruct (Reached_linked rev options (hostname u) w startUrl fin Hr) as [_ Hl].
  intros p Hp. destruct (Hl p Hp) as [?|(page & Hpage & Hin)]; [auto|right].
  apply filterLinks_elem in Hin as (r & Hr' & Hc).
  apply candidate_Some in Hc as (a & v & _ & Hres & Hs & Ha & Hlink).
  exists page, r, a, v. auto 10.
Qed.

(** X9. When the fetch of the start page fails, the crawl ends there: it
    returns a result without pages, after that one visit. *)
Theorem crawl_start_fails rev w startUrl options u w' err :
  newURL startUrl None = Some u ->
  1 <= orDefault (CrawlOptions.maxPages options) 10 ->
  scrapeUrl browse w startUrl (fetchOptions options) = (w', inl err) ->
  crawlUrl newURL browse rev w startUrl options
  = Some {| pages := [];
            stats := {| pagesScraped := 0; linksDiscovered := 0 |} |}
  /\ exists st,
       crawlRun newURL browse rev w startUrl options = Some st
       /\ St.world st = w'
       /\ visitUrls (St.console st) = [startUrl]
       /\ St.queue st = [].
Proof.
  intros Hu Hp Hf.
  assert (E : crawlLoop newURL browse rev options (hostname u)
                (initial w startUrl)
              = St.mk w'
                  ([LogStart startUrl]
                   ++ [LogVisit 1 (orDefault (CrawlOptions.maxPages options) 10)
                         0 startUrl]
                   ++ [LogFailed startUrl err])
                  ({[startUrl]} ∪ ∅) [] [] 0).
  { rewrite crawlLoop_step.
    assert (Hc : loopCond options (initial w startUrl) = true).
    { unfold loopCond. simpl. apply Nat.ltb_lt. lia. }
    rewrite Hc. unfold iteration. simpl. rewrite Hf.
    rewrite crawlLoop_step. unfold loopCond. simpl. reflexivity. }
  unfold crawlUrl. rewrite (crawlRun_Some _ _ _ _ _ _ _ Hu), E. split.
  - simpl. rewrite resultOf_finish. reflexivity.
  - eexists. split; [reflexivity|]. destruct rev; simpl; auto.
Qed.

(** X10. No URL is fetched twice, failed fetches included: the URLs the
    console reports a visit of are pairwise distinct, they are exactly the
    visited set, and the number of visits is its size. *)
Theorem crawl_no_refetch rev w startUrl options st :
  crawlRun newURL browse rev w startUrl options = Some st ->
  NoDup (visitUrls (St.console st))
  /\ St.visited st = list_to_set (visitUrls (St.console st))
  /\ size (St.visited st) = visitsLogged (St.console st).
Proof.
  intros H. apply crawlRun_inv in H as (u & Hu & ->).
  set (fin := crawlLoop newURL browse rev options (hostname u)
                (initial w startUrl)).
  assert (Hr : Reached newURL browse rev options (hostname u)
                 (initial w startUrl) fin) by apply crawlLoop_Reached.
  destruct (Reached_visits rev options (hostname u) (initial w startUrl) fin)
    as [Hv Hn]; [reflexivity|apply NoDup_nil_2|exact Hr|].
  destruct (finish_console rev fin) as (_ & Hvu & _).
  destruct (finish_results rev fin) as (_ & _ & Hvis & _).
  rewrite visitsLogged_visitUrls, Hvu, Hvis. split; [exact Hn|].
  split; [exact Hv|]. rewrite Hv. apply size_list_to_set, Hn.
Qed.

End CrawlMore.

(** *** The further properties on the small site *)

Lemma site_state rev pages depth :
  loopCond (Site.opts pages depth)
    (unroll WebURL.newURL Site.browse rev (Site.opts pages depth)
       "example.com" 30 (initial 0 Site.start)) = false ->
  crawlRun WebURL.newURL Site.browse rev 0 Site.start (Site.opts pages depth)
  = Some (finish rev
            (unroll WebURL.newURL Site.browse rev (Site.opts pages depth)
               "example.com" 30 (initial 0 Site.start))).
Proof.
  intros H.
  apply (crawlUrl_unroll WebURL.newURL Site.browse 30 rev 0 Site.start
           (Site.opts pages depth) Site.startURL start_parses H).
Qed.

(** X5 on the site: the start page is returned under its URL, with the
    six links of the page. *)
Lemma scrapeUrl_result_witness :
  exists result,
    scrapeUrl Site.browse 0 Site.start (fetchOptions (Site.opts 10 2))
    = (1, inr result)
    /\ url result = Site.start
    /\ length (orDefault (links result) []) = 6
    /\ forall h, h ∈ orDefault (links result) [] ->
         h <> "" /\ Str.startsWith h "http" = true /\ skipped h = false.
Proof.
  eexists. split; [vm_compute; reflexivity|].
  split; [reflexivity|]. split; [reflexivity|].
  apply (scrapeUrl_result Site.browse 0 Site.start
           (fetchOptions (Site.opts 10 2)) 1 _ eq_refl).
Defined.

(** X6 on the site: with [maxDepth = 1] page [e], two links away, is not
    visited. *)
Lemma crawl_depth_respected_witness :
  exists st,
    crawlRun WebURL.newURL Site.browse Rev1 0 Site.start (Site.opts 10 1)
    = Some st
    /\ visitDepths (St.console st) = [0; 1; 1; 1; 1]
    /\ Forall (fun d => d <= 1) (visitDepths (St.console st)).
Proof.
  eexists. split; [apply site_state; vm_compute; reflexivity|].
  split; [vm_compute; reflexivity|].
  apply (crawl_depth_respected WebURL.newURL Site.browse Rev1 0 Site.start
           (Site.opts 10 1)).
  apply site_state. vm_compute. reflexivity.
Defined.

(** X7 on the site: the start page, then the pages it links to, then the
    page they link to. *)
Lemma crawl_breadth_first_witness :
  exists st,
    crawlRun WebURL.newURL Site.browse Rev2 0 Site.start (Site.opts 10 2)
    = Some st
    /\ visitDepths (St.console st) = [0; 1; 1; 1; 1; 2]
    /\ StronglySorted le (visitDepths (St.console st))
    /\ pagesByDepth st.
Proof.
  eexists. split; [apply site_state; vm_compute; reflexivity|].
  split; [vm_compute; reflexivity|].
  apply (crawl_breadth_first WebURL.newURL Site.browse Rev2 0 Site.start
           (Site.opts 10 2)).
  apply site_state. vm_compute. reflexivity.
Defined.

(** X8 on the site: the image the start page links to is not fetched, and
    the pages fetched are the start page and pages linked from pages
    fetched. *)
Lemma crawl_stays_in_scope_witness :
  exists st,
    crawlRun WebURL.newURL Site.browse Rev1 0 Site.start (Site.opts 10 2)
    = Some st
    /\ ("https://example.com/logo.png" ∉ visitUrls (St.console st))
    /\ exists u,
         WebURL.newURL Site.start None = Some u
         /\ forall p, p ∈ St.results st ->
              url p = Site.start
              \/ exists page rawLink absoluteUrl urlObj,
                   page ∈ St.results st
                   /\ rawLink ∈ orDefault (links page) []
                   /\ resolveLink WebURL.newURL (url page) rawLink
                      = Some (absoluteUrl, urlObj)
                   /\ inScope (Str.stripWww (hostname u)) false urlObj = true
                   /\ isAsset Rev1 urlObj = false
                   /\ url p = absoluteUrl.
Proof.
  eexists. split; [apply site_state; vm_compute; reflexivity|].
  split; [by_compute|].
  apply (crawl_stays_in_scope WebURL.newURL Site.browse Rev1 0 Site.start
           (Site.opts 10 2)).
  apply site_state. vm_compute. reflexivity.
Defined.

(** X9 on the site: a crawl started at the page that cannot be loaded
    returns no pages. *)
Lemma crawl_start_fails_witness :
  crawlUrl WebURL.newURL Site.browse Rev1 0 "https://example.com/a"
    (Site.opts 10 2)
  = Some {| pages := [];
            stats := {| pagesScraped := 0; linksDiscovered := 0 |} |}
  /\ exists st,
       crawlRun WebURL.newURL Site.browse Rev1 0 "https://example.com/a"
         (Site.opts 10 2) = Some st
       /\ St.world st = 1
       /\ visitUrls (St.console st) = ["https://example.com/a"]
       /\ St.queue st = [].
Proof.
  eapply (crawl_start_fails WebURL.newURL Site.browse Rev1 0
            "https://example.com/a" (Site.opts 10 2)).
  - vm_compute. reflexivity.
  - simpl. lia.
  - vm_compute. reflexivity.
Defined.

(** X10 on the site: five URLs are visited, one without success, each
    once. *)
Lemma crawl_no_refetch_witness :
  exists st,
    crawlRun WebURL.newURL Site.browse Rev1 0 Site.start (Site.opts 10 1)
    = Some st
    /\ visitUrls (St.console st)
       = ["https://example.com/start"; "https://example.com/a";
          "https://example.com/b"; "https://example.com/c";
          "https://example.com/d"]
    /\ NoDup (visitUrls (St.console st))
    /\ St.visited st = list_to_set (visitUrls (St.console st))
    /\ size (St.visited st) = visitsLogged (St.console st).
Proof.
  eexists. split; [apply site_state; vm_compute; reflexivity|].
  split; [vm_compute; reflexivity|].
  apply (crawl_no_refetch WebURL.newURL Site.browse Rev1 0 Site.start
           (Site.opts 10 1)).
  apply site_state. vm_compute. reflexivity.
Defined.

(** * The HTTP routes *)

Section RouteFacts.

Variable newURL : string -> option string -> option URL.
Context {W : Type}.
Variable browse :
  W -> string -> ScrapeOptions.t -> W * (string + PageData.t).
Variable typeErrorMessage : string -> string.

Lemma missing_false url :
  missing url = false -> exists u, url = Some u /\ u <> "".
Proof.
  destruct url as [u|]; [|discriminate]. simpl. intros H. exists u.
  split; [reflexivity|]. intros ->. discriminate.
Qed.

Lemma missing_true url : missing url = true -> url = None \/ url = Some "".
Proof.
  destruct url as [u|]; [|auto]. simpl. intros H. apply String.eqb_eq in H.
  subst. auto.
Qed.

(** X11. [POST /v1/crawl] answers 400, with no fetch, exactly when the
    body has no URL or an empty one; 500, with no fetch, exactly when the
    URL does not parse; and otherwise 200 with a crawl result of pairwise
    distinct pages, at most [maxPages] of them, ten when the body names no
    bound. *)
Theorem crawlRoute_reply rev w body w' reply :
  crawlRoute newURL browse typeErrorMessage rev w body = (w', reply) ->
  match reply with
  | BadRequest e =>
      (CrawlBody.url body = None \/ CrawlBody.url body = Some "")
      /\ e = "Missing 'url' in body" /\ w' = w
  | Failure e =>
      exists u, CrawlBody.url body = Some u /\ u <> ""
        /\ newURL u None = None /\ e = typeErrorMessage u /\ w' = w
  | Success r =>
      exists u, CrawlBody.url body = Some u /\ u <> ""
        /\ is_Some (newURL u None)
        /\ length (pages r) <= orDefault (CrawlBody.maxPages body) 10
        /\ NoDup (url <$> pages r)
        /\ pagesScraped (stats r) = length (pages r)
  end.
Proof.
  unfold crawlRoute. destruct (missing (CrawlBody.url body)) eqn:Em.
  - intros [= <- <-]. split; [apply missing_true, Em|auto].
  - destruct (missing_false _ Em) as (u & Hu & Hne). rewrite Hu. simpl.
    destruct (crawlRun newURL browse rev w u (crawlOptionsOf body))
      as [st|] eqn:E.
    + intros [= <- <-]. exists u. split; [reflexivity|]. split; [exact Hne|].
      apply crawlRun_inv in E as (v & Hv & ->).
      set (fin := crawlLoop newURL browse rev (crawlOptionsOf body) (hostname v)
                    (initial w u)).
      assert (Hr : Reached newURL browse rev (crawlOptionsOf body) (hostname v)
                     (initial w u) fin) by apply crawlLoop_Reached.
      rewrite resultOf_finish. simpl. split; [rewrite Hv; eauto|].
      split; [|split; [|reflexivity]].
      * apply (Reached_results_bound newURL browse rev (crawlOptionsOf body)
                 (hostname v) (initial w u) fin); [simpl; lia|exact Hr].
      * apply (Reached_distinctPages newURL browse rev (crawlOptionsOf body)
                 (hostname v) (initial w u) fin); [|exact Hr].
        split; simpl; [apply NoDup_nil_2|].
        intros p Hp. apply elem_of_nil in Hp. contradiction.
    + intros [= <- <-]. exists u. repeat split; try assumption.
      unfold crawlRun in E. destruct (newURL u None); [discriminate|reflexivity].
Qed.

(** X12. [POST /v1/scrape] answers 400, with no fetch, exactly when the
    body has no URL or an empty one. Otherwise it calls [scrapeUrl] on the
    URL of the body, with the options of the body, and answers 500 with
    the message of the error exactly when that call throws, and 200 with
    the page exactly when it returns one; the page is under the URL of
    the body. The reader's page has no links; the links of the engine's
    page all start with [http]. *)
Theorem scrapeRoute_reply server w body w' reply :
  scrapeRoute browse server w body = (w', reply) ->
  match reply with
  | BadRequest e =>
      (ScrapeBody.url body = None \/ ScrapeBody.url body = Some "")
      /\ e = "Missing 'url' in body" /\ w' = w
  | Failure e =>
      exists u,
        ScrapeBody.url body = Some u /\ u <> ""
        /\ scrapeUrl browse w u (scrapeOptionsOf server body) = (w', inl e)
  | Success r =>
      exists u,
        ScrapeBody.url body = Some u /\ u <> ""
        /\ scrapeUrl browse w u (scrapeOptionsOf server body) = (w', inr r)
        /\ url r = u
        /\ (server = ReaderServer -> links r = Some [])
        /\ forall h, h ∈ orDefault (links r) [] ->
             Str.startsWith h "http" = true
  end.
Proof.
  unfold scrapeRoute. destruct (missing (ScrapeBody.url body)) eqn:Em.
  - intros [= <- <-]. split; [apply missing_true, Em|auto].
  - destruct (missing_false _ Em) as (u & Hu & Hne). rewrite Hu. simpl.
    destruct (scrapeUrl browse w u (scrapeOptionsOf server body))
      as [w1 [err|result]] eqn:E.
    + intros [= <- <-]. exists u. auto.
    + intros [= <- <-]. exists u. split; [reflexivity|]. split; [exact Hne|].
      split; [exact E|].
      split; [apply (scrapeUrl_url _ _ _ _ _ _ E)|]. split.
      * intros ->. unfold scrapeUrl in E.
        destruct (browse w u _) as [w2 [e|page]]; [discriminate|].
        injection E as _ <-. reflexivity.
      * intros h Hh. unfold scrapeUrl in E.
        destruct (browse w u _) as [w2 [e|page]]; [discriminate|].
        injection E as _ <-. destruct server; simpl in Hh.
        -- apply elem_of_nil in Hh. contradiction.
        -- apply list_elem_of_In, List.filter_In in Hh as [_ Hh].
           apply andb_prop in Hh as [_ Hh]. exact Hh.
Qed.

End RouteFacts.

(** X11 on the site: the route with its defaults returns the five pages
    that load, page [e] at depth two included. *)
Lemma crawlRoute_reply_witness :
  exists w' r,
    crawlRoute WebURL.newURL Site.browse (fun _ => "Invalid URL") Rev2 0
      siteCrawlBody = (w', Success r)
    /\ url <$> pages r
       = ["https://example.com/start"; "https://example.com/b";
          "https://example.com/c"; "https://example.com/d";
          "https://example.com/e"]
    /\ length (pages r) <= 10
    /\ NoDup (url <$> pages r).
Proof.
  set (run := unroll WebURL.newURL Site.browse Rev2
                (crawlOptionsOf siteCrawlBody) (hostname Site.startURL) 30
                (initial 0 Site.start)).
  assert (H : crawlRoute WebURL.newURL Site.browse (fun _ => "Invalid URL")
                Rev2 0 siteCrawlBody
              = (St.world (finish Rev2 run), Success (resultOf (finish Rev2 run)))).
  { unfold crawlRoute.
    change (missing (CrawlBody.url siteCrawlBody)) with false. cbv iota.
    change (orDefault (CrawlBody.url siteCrawlBody) "") with Site.start.
    rewrite (crawlRun_Some WebURL.newURL Site.browse Rev2 0 Site.start
               (crawlOptionsOf siteCrawlBody) Site.startURL start_parses).
    rewrite (crawlLoop_unroll WebURL.newURL Site.browse Rev2
               (crawlOptionsOf siteCrawlBody) (hostname Site.startURL) 30
               (initial 0 Site.start)); [reflexivity|].
    vm_compute. reflexivity. }
  exists (St.world (finish Rev2 run)), (resultOf (finish Rev2 run)).
  split; [exact H|]. split; [vm_compute; reflexivity|].
  destruct (crawlRoute_reply WebURL.newURL Site.browse (fun _ => "Invalid URL")
              Rev2 0 siteCrawlBody _ _ H) as (u & _ & _ & _ & Hlen & Hnd & _).
  split; [exact Hlen|exact Hnd].
Defined.

(** X12 on the site: the reader returns the start page with no links. *)
Lemma scrapeRoute_reply_witness :
  exists r,
    scrapeRoute Site.browse ReaderServer 0 siteScrapeBody = (1, Success r)
    /\ url r = Site.start
    /\ links r = Some [].
Proof.
  eexists. split; [vm_compute; reflexivity|].
  destruct (scrapeRoute_reply Site.browse ReaderServer 0 siteScrapeBody 1 _
              eq_refl) as (u & Hu & _ & _ & Hurl & Hlinks & _).
  injection Hu as <-. split; [exact Hurl|exact (Hlinks eq_refl)].
Defined.

(** * Video downloads *)

Ltac unbool H :=
  repeat first [ rewrite orb_true_iff in H | rewrite andb_true_iff in H
               | rewrite N.leb_le in H | rewrite N.eqb_eq in H ].

Section TextFacts.

Lemma fileChar_not_space c : fileChar c = true -> isSpace c = false.
Proof.
  unfold fileChar, isWord, isHyphen, isSpace, between. intros H.
  apply not_true_is_false. intros Hs.
  unbool H. unbool Hs. lia.
Qed.

Lemma kept_fileChar c :
  isWord c || isSpace c || isHyphen c = true -> isSpace c = false ->
  fileChar c = true.
Proof.
  unfold fileChar. intros H Hs. rewrite Hs, orb_false_r in H. exact H.
Qed.

Lemma underscoreSpaces_cons c s :
  underscoreSpaces (c :: s)
  = if isSpace c then
      match s with
      | c' :: _ => if isSpace c' then underscoreSpaces s
                   else 95%N :: underscoreSpaces s
      | [] => [95%N]
      end
    else c :: underscoreSpaces s.
Proof. destruct s; reflexivity. Qed.

Lemma underscoreSpaces_chars s :
  Forall (fun c => isWord c || isSpace c || isHyphen c = true) s ->
  Forall (fun c => fileChar c = true) (underscoreSpaces s).
Proof.
  induction 1 as [|c s Hc Hs IH]; [constructor|].
  rewrite underscoreSpaces_cons. pose proof (kept_fileChar c Hc) as Hk.
  destruct (isSpace c).
  - destruct s as [|c' s']; [repeat constructor|].
    destruct (isSpace c'); [exact IH|]. constructor; [reflexivity|exact IH].
  - constructor; [apply Hk; reflexivity|exact IH].
Qed.

Lemma trimStart_Forall (P : N -> Prop) s :
  Forall P s -> Forall P (trimStart s).
Proof.
  induction 1 as [|c s Hc Hs IH]; [constructor|]. simpl.
  destruct (isSpace c); [exact IH|]. constructor; assumption.
Qed.

Lemma trim_Forall (P : N -> Prop) s : Forall P s -> Forall P (trim s).
Proof.
  intros H. unfold trim, trimEnd.
  apply Forall_reverse, trimStart_Forall, Forall_reverse, trimStart_Forall, H.
Qed.

Lemma removeSymbols_Forall s :
  Forall (fun c => isWord c || isSpace c || isHyphen c = true)
    (removeSymbols s).
Proof.
  apply List.Forall_forall. intros c Hc.
  apply List.filter_In in Hc as [_ Hc]. exact Hc.
Qed.

Lemma trimStart_keeps c s :
  c ∈ s -> isSpace c = false -> c ∈ trimStart s.
Proof.
  intros Hin Hc. induction s as [|d s IH]; [exact Hin|]. simpl.
  destruct (isSpace d) eqn:Ed; [|exact Hin].
  apply elem_of_cons in Hin as [->|Hin]; [congruence|]. apply IH, Hin.
Qed.

Lemma trim_keeps c s : c ∈ s -> isSpace c = false -> c ∈ trim s.
Proof.
  intros Hin Hc. unfold trim, trimEnd.
  apply elem_of_reverse, trimStart_keeps; [|exact Hc].
  apply elem_of_reverse, trimStart_keeps; assumption.
Qed.

Lemma underscoreSpaces_keeps c s :
  c ∈ s -> isSpace c = false -> c ∈ underscoreSpaces s.
Proof.
  intros Hin Hc. induction s as [|d s IH]; [exact Hin|].
  rewrite underscoreSpaces_cons.
  apply elem_of_cons in Hin as [->|Hin].
  - rewrite Hc. apply list_elem_of_here.
  - specialize (IH Hin). destruct (isSpace d).
    + destruct s as [|c' s']; [apply elem_of_nil in Hin; contradiction|].
      destruct (isSpace c'); [exact IH|]. apply list_elem_of_further, IH.
    + apply list_elem_of_further, IH.
Qed.

Lemma removeSymbols_keeps c s :
  c ∈ s -> fileChar c = true -> c ∈ removeSymbols s.
Proof.
  intros Hin Hc. apply list_elem_of_In, List.filter_In.
  split; [apply list_elem_of_In, Hin|].
  unfold fileChar in Hc. apply orb_true_iff in Hc as [Hc|Hc]; rewrite Hc;
    [reflexivity|apply orb_true_r].
Qed.

Lemma trimStart_spaces s :
  Forall (fun c => isSpace c = true) s -> trimStart s = [].
Proof.
  induction 1 as [|c s Hc Hs IH]; [reflexivity|]. simpl. rewrite Hc. exact IH.
Qed.

Lemma trimStart_none s :
  Forall (fun c => isSpace c = false) s -> trimStart s = s.
Proof. destruct 1 as [|c s Hc Hs]; [reflexivity|]. simpl. rewrite Hc. reflexivity. Qed.

Lemma trim_none s : Forall (fun c => isSpace c = false) s -> trim s = s.
Proof.
  intros H. unfold trim, trimEnd. rewrite (trimStart_none s H).
  rewrite trimStart_none; [apply reverse_involutive|apply Forall_reverse, H].
Qed.

Lemma underscoreSpaces_none s :
  Forall (fun c => isSpace c = false) s -> underscoreSpaces s = s.
Proof.
  induction 1 as [|c s Hc Hs IH]; [reflexivity|].
  rewrite underscoreSpaces_cons, Hc, IH. reflexivity.
Qed.

Lemma removeSymbols_none s :
  Forall (fun c => fileChar c = true) s -> removeSymbols s = s.
Proof.
  induction 1 as [|c s Hc Hs IH]; [reflexivity|]. unfold removeSymbols. simpl.
  unfold fileChar in Hc. apply orb_true_iff in Hc.
  replace (isWord c || isSpace c || isHyphen c) with true.
  - f_equal. exact IH.
  - symmetry. destruct Hc as [-> | ->]; [reflexivity|apply orb_true_r].
Qed.

Lemma firstLine_prefix s : firstLine s `prefix_of` s.
Proof.
  induction s as [|c s IH]; [reflexivity|]. simpl.
  destruct (c =? 10)%N; [apply prefix_nil|apply prefix_cons, IH].
Qed.

Lemma firstLine_no_feed s : 10%N ∉ firstLine s.
Proof.
  induction s as [|c s IH]; [apply not_elem_of_nil|]. simpl.
  destruct (c =? 10)%N eqn:E; [apply not_elem_of_nil|].
  apply not_elem_of_cons. split; [|exact IH].
  intros <-. discriminate.
Qed.

Lemma firstLine_whole s : 10%N ∉ s -> firstLine s = s.
Proof.
  induction s as [|c s IH]; [reflexivity|]. intros H.
  apply not_elem_of_cons in H as [Hc Hs]. simpl.
  destruct (c =? 10)%N eqn:E; [apply N.eqb_eq in E; congruence|].
  rewrite (IH Hs). reflexivity.
Qed.

Lemma firstLine_split s :
  s = firstLine s \/ exists rest, s = firstLine s ++ 10%N :: rest.
Proof.
  induction s as [|c s IH]; [left; reflexivity|]. simpl.
  destruct (c =? 10)%N eqn:E.
  - apply N.eqb_eq in E. subst c. right. exists s. reflexivity.
  - destruct IH as [IH|[rest IH]].
    + left. f_equal. exact IH.
    + right. exists rest. simpl. f_equal. exact IH.
Qed.

(** X13. Whatever the title of the video, the name made from it holds
    only letters, digits, [_] and [-]: no white space, quote, slash, dot or
    character outside ASCII. *)
Theorem fileTitle_chars title :
  Forall (fun c => fileChar c = true) (fileTitle title).
Proof.
  unfold fileTitle. apply underscoreSpaces_chars, trim_Forall.
  apply removeSymbols_Forall.
Qed.

(** X14. The name made from a title is empty exactly when the title is
    not empty and holds no letter, digit, [_] or [-]: the default name
    stands in for a missing or empty title only. *)
Theorem fileTitle_empty title :
  fileTitle title = []
  <-> exists s, title = Some s /\ s <> []
        /\ Forall (fun c => fileChar c = false) s.
Proof.
  split.
  - intros H.
    assert (Hall : forall named,
              underscoreSpaces (trim (removeSymbols named)) = [] ->
              Forall (fun c => fileChar c = false) named).
    { intros named Hn. apply Forall_forall. intros c Hc.
      destruct (fileChar c) eqn:Ec; [|reflexivity]. exfalso.
      pose proof (fileChar_not_space c Ec) as Hs.
      pose proof (underscoreSpaces_keeps c _
                    (trim_keeps c _ (removeSymbols_keeps c _ Hc Ec) Hs) Hs)
        as Hin.
      rewrite Hn in Hin. apply elem_of_nil in Hin. exact Hin. }
    destruct title as [[|c s]|].
    + apply Hall in H. apply Forall_cons in H as [H _]. discriminate H.
    + exists (c :: s). split; [reflexivity|]. split; [discriminate|].
      apply Hall, H.
    + apply Hall in H. apply Forall_cons in H as [H _]. discriminate H.
  - intros (s & -> & Hne & Hall). destruct s as [|c s]; [congruence|].
    unfold fileTitle.
    assert (Hsp : Forall (fun c => isSpace c = true)
                    (removeSymbols (c :: s))).
    { apply List.Forall_forall. intros d Hd.
      apply List.filter_In in Hd as [Hd Hk].
      apply list_elem_of_In in Hd.
      rewrite Forall_forall in Hall. specialize (Hall d Hd).
      unfold fileChar in Hall. apply orb_false_iff in Hall as [Hw Hh].
      rewrite Hw, Hh, orb_false_r in Hk. exact Hk. }
    unfold trim. rewrite (trimStart_spaces _ Hsp). reflexivity.
Qed.

(** X15. A title that is not empty and holds only letters, digits, [_]
    and [-] names the file as it is. *)
Theorem fileTitle_fixed s :
  s <> [] -> Forall (fun c => fileChar c = true) s -> fileTitle (Some s) = s.
Proof.
  intros Hne Hs. destruct s as [|c s]; [congruence|]. unfold fileTitle.
  assert (Hn : Forall (fun c => isSpace c = false) (c :: s)).
  { eapply Forall_impl; [exact Hs|]. apply fileChar_not_space. }
  rewrite (removeSymbols_none _ Hs), (trim_none _ Hn).
  apply underscoreSpaces_none, Hn.
Qed.

End TextFacts.

Section VideoFacts.

Context {W : Type}.
Variable Num : Type.
Variable truthy : Num -> bool.
Variable zero : Num.
Variable minus : Num -> Num -> Num.
Variable positive : Num -> bool.
Variable parseInt : string -> Num.
Variable Stream : Type.
Variable ytInfo : W -> string -> W * (string + Info.t Num).
Variable ytUrl : W -> string -> string -> W * (string + Text).
Variable fetch : W -> Text -> W * (string + Response.t Stream).

Lemma orString_truthy s d : d <> "" -> orString s d <> "".
Proof.
  intros Hd. destruct s as [s|]; [|exact Hd]. simpl.
  destruct (String.eqb s "") eqn:E; [exact Hd|].
  apply String.eqb_neq, E.
Qed.

Lemma printable_fileChar c : fileChar c = true -> printable c = true.
Proof.
  unfold fileChar, isWord, isHyphen, printable, between. intros H.
  unbool H.
  apply andb_true_iff. rewrite !N.leb_le. lia.
Qed.

Lemma quote_fileChar c : fileChar c = true -> (c =? 34)%N = false.
Proof.
  unfold fileChar, isWord, isHyphen, between. intros H.
  unbool H.
  apply N.eqb_neq. lia.
Qed.

Lemma filter_none {A} (f : A -> bool) l :
  Forall (fun x => f x = false) l -> List.filter f l = [].
Proof.
  induction 1 as [|x l Hx Hl IH]; [reflexivity|]. simpl. rewrite Hx. exact IH.
Qed.

(** The header of a download whose name is made of name characters and
    [.mp4]: printable ASCII, with the two quotes that enclose the name
    and no other. *)
Lemma contentDisposition_sound t :
  Forall (fun c => fileChar c = true) t ->
  Forall (fun c => printable c = true)
    (contentDisposition (t ++ text ".mp4"))
  /\ length (List.filter (N.eqb 34) (contentDisposition (t ++ text ".mp4")))
     = 2.
Proof.
  intros Ht. unfold contentDisposition. split.
  - apply Forall_app. split; [by_compute|].
    apply Forall_app. split; [repeat constructor|].
    apply Forall_app. split; [|repeat constructor].
    apply Forall_app. split; [|by_compute].
    eapply Forall_impl; [exact Ht|]. apply printable_fileChar.
  - rewrite !List.filter_app, !length_app.
    rewrite (filter_none (N.eqb 34) t).
    + reflexivity.
    + eapply Forall_impl; [exact Ht|]. intros c Hc.
      rewrite N.eqb_sym. apply quote_fileChar, Hc.
Qed.

(** X16. [getVideoStreamUrl] asks the downloader for the format of the
    module and fails with [Failed to resolve stream: ] and the cause when
    the downloader fails. The first module returns the trimmed output.
    StreamJet returns its first line: a URL with no line feed, such that
    the trimmed output is that URL, or that URL, a line feed and the rest.
    So on the same output StreamJet's URL is the first line of what the
    first module returns. *)
Theorem getVideoStreamUrl_line m w url w' outcome :
  getVideoStreamUrl ytUrl m w url = (w', outcome) ->
  match outcome with
  | inr streamUrl =>
      exists output,
        ytUrl w url (formatAsked m) = (w', inr output)
        /\ match m with
           | VideoV1 => streamUrl = trim output
           | StreamJet =>
               (10%N ∉ streamUrl)
               /\ (trim output = streamUrl
                   \/ exists rest, trim output = streamUrl ++ 10%N :: rest)
           end
  | inl err =>
      exists cause,
        ytUrl w url (formatAsked m) = (w', inl cause)
        /\ err = "Failed to resolve stream: " +:+ cause
  end.
Proof.
  unfold getVideoStreamUrl.
  destruct (ytUrl w url (formatAsked m)) as [w1 [cause|output]];
    intros [= <- <-].
  - exists cause. auto.
  - exists output. split; [reflexivity|]. destruct m; simpl; [reflexivity|].
    split; [apply firstLine_no_feed|apply firstLine_split].
Qed.

(** X17. A download that [streamVideo] returns has a file name made of
    letters, digits, [_] and [-] followed by [.mp4], the default name when
    the metadata could not be read, and a content type that is not empty;
    its [Content-Disposition] header is printable ASCII with the two quotes
    around the name and no other. The stream is the body of an upstream
    response that was [ok]. *)
Theorem streamVideo_download w url w' d :
  streamVideo Num truthy zero minus positive parseInt Stream ytInfo ytUrl
    fetch w url = (w', inr d) ->
  exists w1 metadata w2 streamUrl response,
    ytInfo w url = (w1, metadata)
    /\ getVideoStreamUrl ytUrl StreamJet w1 url = (w2, inr streamUrl)
    /\ fetch w2 streamUrl = (w', inr response)
    /\ Response.ok response = true
    /\ Response.body response = Some (Download.stream d)
    /\ Download.contentType d <> ""
    /\ (exists t, Download.filename d = t ++ text ".mp4"
          /\ Forall (fun c => fileChar c = true) t
          /\ forall err, metadata = inl err -> t = text "danrit-video")
    /\ Forall (fun c => printable c = true)
         (contentDisposition (Download.filename d))
    /\ length (List.filter (N.eqb 34)
                 (contentDisposition (Download.filename d))) = 2.
Proof.
  intros H. unfold streamVideo in H.
  destruct (ytInfo w url) as [w1 metadata] eqn:Ei.
  match type of H with
  | (let '(title, filesize) := ?p in _) = _ =>
      destruct p as [title filesize] eqn:En
  end.
  assert (Ht : Forall (fun c => fileChar c = true) title
               /\ forall err, metadata = inl err -> title = text "danrit-video").
  { destruct metadata as [err|info]; injection En as <- _.
    - split; [by_compute|reflexivity].
    - split; [|discriminate]. unfold fileTitle.
      apply underscoreSpaces_chars, trim_Forall, removeSymbols_Forall. }
  destruct Ht as [Ht Hdefault].
  destruct (getVideoStreamUrl ytUrl StreamJet w1 url)
    as [w2 [err|streamUrl]] eqn:Eu; [discriminate H|].
  destruct (fetch w2 streamUrl) as [w3 [err|response]] eqn:Ef;
    [discriminate H|].
  destruct (Response.ok response) eqn:Eok; [|discriminate H]. simpl in H.
  destruct (Response.body response) as [webStream|] eqn:Eb; [|discriminate H].
  injection H as <- <-. simpl.
  exists w1, metadata, w2, streamUrl, response.
  split; [reflexivity|]. split; [exact Eu|]. split; [exact Ef|].
  split; [exact Eok|]. split; [exact Eb|].
  split; [apply orString_truthy; discriminate|].
  split; [exists title; auto|].
  apply contentDisposition_sound, Ht.
Qed.

Lemma insertSorted_elem (f a : Format.t Num) l :
  f ∈ insertSorted Num truthy zero minus positive a l -> f = a \/ f ∈ l.
Proof.
  induction l as [|b l IH]; simpl.
  - intros H. apply elem_of_cons in H as [H|H]; auto.
  - destruct (positive _).
    + intros H. apply elem_of_cons in H as [->|H].
      * right. apply list_elem_of_here.
      * destruct (IH H) as [->|Hl]; [auto|].
        right. apply list_elem_of_further, Hl.
    + intros H. apply elem_of_cons in H as [H|H]; auto.
Qed.

Lemma sortBySize_elem (f : Format.t Num) l :
  f ∈ sortBySize Num truthy zero minus positive l -> f ∈ l.
Proof.
  induction l as [|a l IH]; simpl; [auto|]. intros H.
  apply insertSorted_elem in H as [->|H];
    [apply list_elem_of_here|apply list_elem_of_further, IH, H].
Qed.

Lemma sizeOf_Some best n :
  sizeOf Num truthy best = Some n ->
  truthy n = true
  /\ exists f, best = Some f
       /\ (Format.filesize f = Some n
           \/ (Format.filesize_approx f = Some n
               /\ forall m, Format.filesize f = Some m -> truthy m = false)).
Proof.
  destruct best as [f|]; [|discriminate]. simpl.
  destruct (Format.filesize f) as [a|] eqn:Ea.
  - destruct (truthy a) eqn:Ta.
    + intros [= <-]. split; [exact Ta|]. exists f. auto.
    + destruct (Format.filesize_approx f) as [b|] eqn:Eb; [|discriminate].
      destruct (truthy b) eqn:Tb; [|discriminate].
      intros [= <-]. split; [exact Tb|]. exists f. split; [reflexivity|].
      right. split; [exact Eb|]. intros m Hm. rewrite Ea in Hm.
      injection Hm as <-. exact Ta.
  - destruct (Format.filesize_approx f) as [b|] eqn:Eb; [|discriminate].
    destruct (truthy b) eqn:Tb; [|discriminate].
    intros [= <-]. split; [exact Tb|]. exists f. split; [reflexivity|].
    right. split; [exact Eb|]. intros m Hm. rewrite Ea in Hm.
    discriminate Hm.
Qed.

(** X19. The size of a download is the number [parseInt] reads from the
    [Content-Length] of the upstream response of the run whenever that
    header is there and not empty, whatever the metadata says. Only
    without it does the size come from the metadata: it is null when the
    metadata could not be read, and when it is a number it passes
    [if (n)] and is the size of an [mp4] format of the video that has
    both a video and an audio codec, the approximate size only when the
    exact one is missing or does not pass that test. *)
Theorem streamVideo_filesize w url w' d :
  streamVideo Num truthy zero minus positive parseInt Stream ytInfo ytUrl
    fetch w url = (w', inr d) ->
  exists w1 metadata w2 streamUrl response,
    ytInfo w url = (w1, metadata)
    /\ getVideoStreamUrl ytUrl StreamJet w1 url = (w2, inr streamUrl)
    /\ fetch w2 streamUrl = (w', inr response)
    /\ (forall l,
          Response.contentLength response = Some l -> l <> "" ->
          Download.filesize d = Some (parseInt l))
    /\ (Response.contentLength response = None
        \/ Response.contentLength response = Some "" ->
        (forall err, metadata = inl err -> Download.filesize d = None)
        /\ forall n,
             Download.filesize d = Some n ->
             truthy n = true
             /\ exists info f,
                  metadata = inr info
                  /\ f ∈ orDefault (Info.formats info) []
                  /\ Format.ext f = Some (text "mp4")
                  /\ Format.vcodec f <> Some (text "none")
                  /\ Format.acodec f <> Some (text "none")
                  /\ (Format.filesize f = Some n
                      \/ (Format.filesize_approx f = Some n
                          /\ forall m, Format.filesize f = Some m ->
                                       truthy m = false))).
Proof.
  intros H. unfold streamVideo in H.
  destruct (ytInfo w url) as [w1 metadata] eqn:Ei.
  match type of H with
  | (let '(title, filesize) := ?p in _) = _ =>
      destruct p as [title filesize] eqn:En
  end.
  assert (Hnone : forall err, metadata = inl err -> filesize = None).
  { intros err ->. injection En as _ <-. reflexivity. }
  assert (Hmeta : forall n, filesize = Some n ->
            truthy n = true
            /\ exists info f,
                 metadata = inr info
                 /\ f ∈ orDefault (Info.formats info) []
                 /\ Format.ext f = Some (text "mp4")
                 /\ Format.vcodec f <> Some (text "none")
                 /\ Format.acodec f <> Some (text "none")
                 /\ (Format.filesize f = Some n
                     \/ (Format.filesize_approx f = Some n
                         /\ forall m, Format.filesize f = Some m ->
                                      truthy m = false))).
  { intros n. destruct metadata as [err|info]; injection En as _ <-;
      [discriminate|].
    intros Hs. apply sizeOf_Some in Hs as (Ht & f & Hf & Hsize).
    split; [exact Ht|]. exists info, f. split; [reflexivity|].
    destruct (sortBySize _ _ _ _ _ _) as [|g l] eqn:Es; [discriminate|].
    injection Hf as ->.
    assert (Hin : f ∈ sortBySize Num truthy zero minus positive
                        (List.filter (playable Num)
                           (orDefault (Info.formats info) [])))
      by (rewrite Es; apply list_elem_of_here).
    apply sortBySize_elem, list_elem_of_In, List.filter_In in Hin as [Hin Hp].
    split; [apply list_elem_of_In, Hin|]. unfold playable in Hp.
    apply andb_prop in Hp as [Hp Ha]. apply andb_prop in Hp as [He Hv].
    apply bool_decide_eq_true in He. apply negb_true_iff in Hv, Ha.
    apply bool_decide_eq_false in Hv, Ha. auto. }
  destruct (getVideoStreamUrl ytUrl StreamJet w1 url)
    as [w2 [err|streamUrl]] eqn:Eu; [discriminate H|].
  destruct (fetch w2 streamUrl) as [w3 [err|response]] eqn:Ef;
    [discriminate H|].
  destruct (Response.ok response) eqn:Eok; [|discriminate H]. simpl in H.
  destruct (Response.body response) as [webStream|] eqn:Eb; [|discriminate H].
  injection H as <- <-. simpl.
  exists w1, metadata, w2, streamUrl, response.
  split; [reflexivity|]. split; [exact Eu|]. split; [exact Ef|]. split.
  - intros l -> Hl. apply String.eqb_neq in Hl. rewrite Hl. reflexivity.
  - intros [-> | ->]; simpl; split; assumption.
Qed.

(** X18. Whether [streamVideo] returns a download does not depend on the
    metadata: it does exactly when, after the metadata call, the stream
    URL resolves and its fetch gives an [ok] response with a body. *)
Theorem streamVideo_succeeds w url :
  (exists w' d,
     streamVideo Num truthy zero minus positive parseInt Stream ytInfo ytUrl
       fetch w url = (w', inr d))
  <-> exists w2 streamUrl w3 response webStream,
        getVideoStreamUrl ytUrl StreamJet (ytInfo w url).1 url
        = (w2, inr streamUrl)
        /\ fetch w2 streamUrl = (w3, inr response)
        /\ Response.ok response = true
        /\ Response.body response = Some webStream.
Proof.
  unfold streamVideo.
  destruct (ytInfo w url) as [w1 metadata]. simpl.
  match goal with
  | |- context [let '(title, filesize) := ?p in _] =>
      destruct p as [title filesize]
  end.
  destruct (getVideoStreamUrl ytUrl StreamJet w1 url)
    as [w2 [err|streamUrl]].
  { split; [intros (? & ? & [=])|intros (? & ? & ? & ? & ? & [=] & _)]. }
  destruct (fetch w2 streamUrl) as [w3 [err|response]] eqn:Ef.
  { split; [intros (? & ? & [=])|].
    intros (? & ? & ? & ? & ? & [= <- <-] & Hf & _). congruence. }
  destruct (Response.ok response) eqn:Eok; simpl.
  2:{ split; [intros (? & ? & [=])|].
      intros (? & ? & ? & ? & ? & [= <- <-] & Hf & Hok & _).
      rewrite Ef in Hf. injection Hf as <- <-. congruence. }
  destruct (Response.body response) as [webStream|] eqn:Eb.
  2:{ split; [intros (? & ? & [=])|].
      intros (? & ? & ? & ? & ? & [= <- <-] & Hf & _ & Hb).
      rewrite Ef in Hf. injection Hf as <- <-. congruence. }
  split; [|eauto].
  intros _. exists w2, streamUrl, w3, response, webStream. auto.
Qed.

End VideoFacts.

(** X15 on a name that needs no change. *)
Lemma fileTitle_fixed_witness :
  fileTitle (Some (text "clip-01_final")) = text "clip-01_final".
Proof.
  apply (fileTitle_fixed (text "clip-01_final")); [discriminate|by_compute].
Defined.

(** X16 on the video: of the two lines of the downloader, the first is
    the stream URL. *)
Lemma getVideoStreamUrl_line_witness :
  exists streamUrl,
    getVideoStreamUrl Tube.ytUrl StreamJet 0 "https://video.example.com/1"
    = (1, inr streamUrl)
    /\ streamUrl = text "https://cdn.example.com/v.mp4"
    /\ (10%N ∉ streamUrl)
    /\ exists output rest,
         Tube.ytUrl 0 "https://video.example.com/1" (formatAsked StreamJet)
         = (1, inr output)
         /\ trim output = streamUrl ++ 10%N :: rest.
Proof.
  eexists. split; [vm_compute; reflexivity|]. split; [vm_compute; reflexivity|].
  destruct (getVideoStreamUrl_line Tube.ytUrl StreamJet 0
              "https://video.example.com/1" 1
              (inr (text "https://cdn.example.com/v.mp4")) eq_refl)
    as (output & Hout & Hfeed & [Hwhole|[rest Hrest]]).
  - exfalso. unfold Tube.ytUrl in Hout. injection Hout as <-.
    vm_compute in Hwhole. discriminate Hwhole.
  - split; [exact Hfeed|]. exists output, rest. split; [exact Hout|exact Hrest].
Defined.

(** X17 on the video: the symbols of the title are dropped, its spaces
    become [_], and the upstream response, which names no type, is served
    as [video/mp4]. *)
Lemma streamVideo_download_witness :
  exists d,
    Tube.stream 0 "https://video.example.com/1" = (3, inr d)
    /\ Download.filename d = text "Rust_in_100_seconds_why_2024.mp4"
    /\ Download.contentType d = "video/mp4"
    /\ Download.stream d = text "https://cdn.example.com/v.mp4"
    /\ Forall (fun c => printable c = true)
         (contentDisposition (Download.filename d)).
Proof.
  eexists. split; [vm_compute; reflexivity|].
  split; [vm_compute; reflexivity|]. split; [reflexivity|].
  split; [vm_compute; reflexivity|].
  destruct (streamVideo_download N (fun n => negb (n =? 0)%N) 0%N N.sub
              (fun n => (0 <? n)%N) (fun _ => 0%N) Text Tube.ytInfo Tube.ytUrl
              Tube.fetch 0 "https://video.example.com/1" 3 _ eq_refl)
    as (w1 & metadata & w2 & streamUrl & response & _ & _ & _ & _ & _ & _
        & _ & Hprint & _).
  exact Hprint.
Defined.

(** X19 on the video: the upstream names no length, and the size is that
    of the format. *)
Lemma streamVideo_filesize_witness :
  exists d,
    Tube.stream 0 "https://video.example.com/1" = (3, inr d)
    /\ Download.filesize d = Some 4096%N
    /\ exists f,
         f ∈ orDefault (Info.formats Tube.info) []
         /\ Format.filesize f = Some 4096%N.
Proof.
  eexists. split; [vm_compute; reflexivity|]. split; [reflexivity|].
  destruct (streamVideo_filesize N (fun n => negb (n =? 0)%N) 0%N N.sub
              (fun n => (0 <? n)%N) (fun _ => 0%N) Text Tube.ytInfo Tube.ytUrl
              Tube.fetch 0 "https://video.example.com/1" 3 _ eq_refl)
    as (w1 & metadata & w2 & streamUrl & response & Hi & _ & Hf & _ & Hmeta).
  unfold Tube.fetch in Hf. injection Hf as _ <-.
  unfold Tube.ytInfo in Hi. injection Hi as _ <-.
  destruct (Hmeta (or_introl eq_refl)) as [_ Hsome].
  destruct (Hsome 4096%N eq_refl)
    as (_ & info & f & Hinfo & Hin & _ & _ & _ & Hsize).
  injection Hinfo as <-. exists f. split; [exact Hin|].
  destruct Hsize as [Hs|[Hs _]]; [exact Hs|]. exfalso. simpl in Hin.
  apply elem_of_cons in Hin as [->|Hin]; [discriminate Hs|].
  apply elem_of_nil in Hin. exact Hin.
Defined.
